(** * CameraTransform: a shallow embedding of [CameraTransform.py]

    The class [CameraTransform] models a pinhole camera mounted above a ground
    plane.  This development embeds the projection model, the back-projection
    onto a fixed plane, the earth-curvature transforms, the bearing helper and
    the free-parameter selection of the fitting engine, and states their
    properties.

    Numbers.  numpy computes with IEEE doubles; the embedding computes with
    the real numbers of the Standard Library, so a property that the
    specification states "within floating-point tolerance" is stated here as
    an equality of reals.  numpy answers a division by zero with inf or nan
    and a warning, never with an exception; a real quotient has no such
    value, therefore every statement below that looks at a quotient carries
    the hypothesis that its divisor is not zero.

    Objects.  A Python object is a dictionary from attribute names to values,
    and the source reads and writes attributes by name ([setattr] in [_fit],
    [getattr] in [save]); the embedding keeps that dictionary as a finite map
    from strings to values.  An attribute that was never assigned is absent
    from the map and reading it raises [AttributeError]. *)

From Stdlib Require Import Reals Lra Lia ZArith RNsatz.
From stdpp Require Import base option list gmap strings.

#[local] Open Scope R_scope.

#[global] Instance R_eq_dec : EqDecision R := Req_EM_T.
#[global] Instance Rlt_rel_dec : RelDecision Rlt := Rlt_dec.

(** ** Python values, exceptions and the error monad *)

Module Py.

(** The exceptions the embedded code can raise.  [ValueError] carries its
    message, since the source raises it with a fixed text in
    [transCamToWorld] and numpy raises it for ill-shaped operands. *)
Inductive exn : Type :=
| ValueError (msg : string)
| TypeError
| IndexError
| AttributeError
| KeyError (key : string)
| ZeroDivisionError
| LinAlgError.

Inductive result (A : Type) : Type :=
| Ok (a : A)
| Raise (e : exn).
#[global] Arguments Ok {A} a.
#[global] Arguments Raise {A} e.

#[global] Instance result_ret : MRet result := λ A a, Ok a.
#[global] Instance result_bind : MBind result :=
  λ A B k m, match m with Ok a => k a | Raise e => Raise e end.
#[global] Instance result_fmap : FMap result :=
  λ A B g m, match m with Ok a => Ok (g a) | Raise e => Raise e end.

(** [for v in l: ...] with a body that may raise. *)
Fixpoint mapM {A B : Type} (k : A → result B) (l : list A) : result (list B) :=
  match l with
  | [] => Ok []
  | a :: l' => b ← k a; bs ← mapM k l'; Ok (b :: bs)
  end.

(** A two-dimensional float array, as the list of its rows. *)
Definition matrix : Type := list (list R).

(** The values an attribute of a camera can hold. *)
Inductive value : Type :=
| VNone
| VNum (r : R)
| VArr (m : matrix).

Definition getattr (self : gmap string value) (name : string) : result value :=
  match self !! name with
  | Some v => Ok v
  | None => Raise AttributeError
  end.

Definition setattr (name : string) (v : value) (self : gmap string value)
  : gmap string value :=
  <[name := v]> self.

(** [v is None] *)
Definition is_none (v : value) : bool :=
  match v with VNone => true | _ => false end.

(** The truth value of [v] in [if v:].  numpy refuses to give one to an
    array with several entries. *)
Definition truthy (v : value) : result bool :=
  match v with
  | VNone => Ok false
  | VNum r => Ok (bool_decide (r ≠ 0))
  | VArr _ => Raise (ValueError "The truth value of an array is ambiguous")
  end.

(** [v] used as an operand of float arithmetic: [None] is a [TypeError]. *)
Definition num (v : value) : result R :=
  match v with
  | VNum r => Ok r
  | _ => Raise TypeError
  end.

(** [v] used as a two-dimensional array operand. *)
Definition arr (v : value) : result matrix :=
  match v with
  | VArr m => Ok m
  | _ => Raise TypeError
  end.

Definition of_option (o : option R) : value :=
  match o with Some r => VNum r | None => VNone end.

End Py.
Export Py.

(** ** The part of numpy the class uses *)

Module Np.

Definition nrows (m : matrix) : nat := length m.

(** [m.shape[1]] *)
Definition ncols (m : matrix) : nat :=
  match m with
  | [] => 0%nat
  | r :: _ => length r
  end.

Definition ones (n : nat) : list R := replicate n 1.

(** The scalar product of two rows. *)
Definition dotp (u v : list R) : R := foldr Rplus 0 (zip_with Rmult u v).

(** [m[:, j]] *)
Definition col (j : nat) (m : matrix) : list R := map (λ r, nth j r 0) m.

(** [m.T] *)
Definition transpose (m : matrix) : matrix :=
  map (λ j, col j m) (seq 0 (ncols m)).

(** [np.array([v]).T]: a one-dimensional array as a column. *)
Definition column (v : list R) : matrix := map (λ e, [e]) v.

Definition mmul (a b : matrix) : matrix :=
  map (λ r, map (dotp r) (transpose b)) a.

(** [np.dot(a, b)] for two-dimensional operands. *)
Definition dot (a b : matrix) : result matrix :=
  if (ncols a =? nrows b)%nat then Ok (mmul a b)
  else Raise (ValueError "shapes not aligned").

(** [np.hstack((a, b))] *)
Definition hstack (a b : matrix) : result matrix :=
  if (nrows a =? nrows b)%nat then Ok (zip_with app a b)
  else Raise (ValueError "all the input array dimensions must match").

(** [np.vstack((m, r))] for a one-dimensional [r]. *)
Definition vstack (m : matrix) (r : list R) : result matrix :=
  if (ncols m =? length r)%nat then Ok (m ++ [r])
  else Raise (ValueError "all the input array dimensions must match").

(** The determinant of a 3x3 system. *)
Definition det3 (a b c d e f g h i : R) : R :=
  a * (e * i - f * h) - b * (d * i - f * g) + c * (d * h - e * g).

(** [np.linalg.solve(P, x)] for the 3x3 systems the class builds: the
    camera matrix has three rows, so every reduced matrix is 3x3.  A
    singular [P] raises [LinAlgError]; the solution is written with the
    adjugate of [P] (Cramer's rule). *)
Definition solve (P x : matrix) : result matrix :=
  match P with
  | [[a; b; c]; [d; e; f]; [g; h; i]] =>
      if negb (nrows x =? 3)%nat then
        Raise (ValueError "solve: mismatch in core dimension")
      else
        let D := det3 a b c d e f g h i in
        if decide (D = 0) then Raise LinAlgError
        else
          Ok (mmul [[(e * i - f * h) / D; (c * h - b * i) / D; (b * f - c * e) / D];
                    [(f * g - d * i) / D; (a * i - c * g) / D; (c * d - a * f) / D];
                    [(d * h - e * g) / D; (b * g - a * h) / D; (a * e - b * d) / D]]
                   x)
  | _ => Raise LinAlgError
  end.

(** The determinant of a matrix given as a list of rows; the class only
    meets 3x3 systems, any other shape is given 0. *)
Definition det (P : matrix) : R :=
  match P with
  | [[a; b; c]; [d; e; f]; [g; h; i]] => det3 a b c d e f g h i
  | _ => 0
  end.

(** [np.linalg.norm(v)] of a one-dimensional array. *)
Definition norm (v : list R) : R := sqrt (dotp v v).

End Np.

(** ** numpy's angle functions, used by the GPS methods *)

Module NpAngle.

Definition deg2rad (x : R) : R := x * PI / 180.

Definition rad2deg (x : R) : R := x * 180 / PI.

(** [np.arctan2(y, x)]: the angle of the point [(x, y)], in the interval
    from [-pi] to [pi].  The real numbers have one zero, which stands for
    the positive zero of the floats: [arctan2(0, x)] is [pi] for a negative
    [x] and [arctan2(0, 0)] is [0]. *)
Definition arctan2 (y x : R) : R :=
  if decide (0 < x) then atan (y / x)
  else if decide (x < 0) then
    if decide (y < 0) then atan (y / x) - PI else atan (y / x) + PI
  else if decide (0 < y) then PI / 2
  else if decide (y < 0) then - (PI / 2)
  else 0.

End NpAngle.

(** ** The class *)

Module CameraTransform.

Import Np.

(** The class attributes and their defaults: what a fresh instance reads
    before anything is assigned. *)
Definition class_attribute_list : list (string * value) :=
    [("t", VNone); ("R", VNone); ("C", VNone);
     ("R_earth", VNum 6371e3);
     ("lat", VNone); ("lon", VNone); ("gps_heading", VNone);
     ("cam_location", VNone); ("cam_heading", VNone);
     ("cam_heading_rotation_matrix", VNone);
     ("height", VNone); ("roll", VNone); ("heading", VNum 0);
     ("tilt", VNone); ("tan_tilt", VNone);
     ("pos_x", VNum 0); ("pos_y", VNum 0);
     ("fixed_horizon", VNone);
     ("estimated_height", VNum 30); ("estimated_tilt", VNum 85);
     ("estimated_heading", VNum 0); ("estimated_roll", VNum 0);
     ("f", VNone); ("sensor_width", VNone); ("sensor_height", VNone);
     ("fov_h_angle", VNone); ("fov_v_angle", VNone);
     ("im_width", VNone); ("im_height", VNone)].

Definition class_attributes : gmap string value :=
  list_to_map class_attribute_list.

(** *** Intrinsic matrix *)

Definition _initIntrinsicMatrix (self : gmap string value)
  : result (gmap string value) :=
  fl ← getattr self "f" ≫= num;
  sw ← getattr self "sensor_width" ≫= num;
  iw ← getattr self "im_width" ≫= num;
  let f_normed := fl / sw * iw in
  let self := setattr "f_normed" (VNum f_normed) self in
  ih ← getattr self "im_height" ≫= num;
  Ok (setattr "C1"
        (VArr [[f_normed; 0; iw / 2; 0];
               [0; f_normed; ih / 2; 0];
               [0; 0; 1; 0]]) self).

(** *** Rotation matrices *)

Definition rot_tilt (angle : R) : matrix :=
  [[1; 0; 0];
   [0; cos angle; sin angle];
   [0; - sin angle; cos angle]].

(** The roll and the heading matrix have the same shape in the source. *)
Definition rot_z (a : R) : matrix :=
  [[cos a; sin a; 0];
   [- sin a; cos a; 0];
   [0; 0; 1]].

(** *** Camera matrix *)

(** The first half of [_initCameraMatrix]: arguments and attributes are
    resolved into the three angles in radians and the height; [tilt] and
    [height] are stored when given, and a truthy [tan_tilt] overrides the
    tilt angle. *)
Definition pose_angles (height tilt_angle roll_angle : option R)
    (self : gmap string value)
  : result (R * R * R * value * gmap string value) :=
  '(tilt_angle, self) ←
    match tilt_angle with
    | None => v ← getattr self "tilt"; Ok (v, self)
    | Some a => Ok (VNum a, setattr "tilt" (VNum a) self)
    end;
  '(height, self) ←
    match height with
    | None => v ← getattr self "height"; Ok (v, self)
    | Some h => Ok (VNum h, setattr "height" (VNum h) self)
    end;
  a ← num tilt_angle;
  let angle := a * PI / 180 in
  roll ←
    match roll_angle with
    | None =>
        r ← getattr self "roll";
        b ← truthy r;
        if b : bool then v ← num r; Ok (v * PI / 180) else Ok 0
    | Some r => Ok (r * PI / 180)
    end;
  hd ← getattr self "heading";
  b ← truthy hd;
  heading ← (if b : bool then v ← num hd; Ok (v * PI / 180) else Ok 0);
  tt ← getattr self "tan_tilt";
  b ← truthy tt;
  if b : bool then
    v ← num tt;
    let angle := PI / 2 - atan v in
    Ok (angle, roll, heading, height,
        setattr "tilt" (VNum (angle * 180 / PI)) self)
  else Ok (angle, roll, heading, height, self).

(** The second half: translation, rotations, the rigid transform and the
    camera matrix. *)
Definition compose_camera_matrix (angle roll heading : R) (height : value)
    (self : gmap string value) : result (gmap string value) :=
  (* the translation, as a column *)
  px ← getattr self "pos_x";
  py ← getattr self "pos_y";
  h ← num height;
  px ← num px;
  py ← num py;
  let self := setattr "t" (VArr (column [px; py; - h])) self in
  let self := setattr "R_tilt" (VArr (rot_tilt angle)) self in
  let self := setattr "R_roll" (VArr (rot_z roll)) self in
  let self := setattr "R_head" (VArr (rot_z heading)) self in
  (* rotate the translation around the tilt angle *)
  R_tilt ← getattr self "R_tilt" ≫= arr;
  t ← getattr self "t" ≫= arr;
  t ← dot R_tilt t;
  let self := setattr "t" (VArr t) self in
  (* the rotation composed with the translation *)
  R_roll ← getattr self "R_roll" ≫= arr;
  R_tilt ← getattr self "R_tilt" ≫= arr;
  rt ← dot R_roll R_tilt;
  R_head ← getattr self "R_head" ≫= arr;
  rth ← dot rt R_head;
  t ← getattr self "t" ≫= arr;
  top ← hstack rth t;
  RT ← vstack top [0; 0; 0; 1];
  let self := setattr "R" (VArr RT) self in
  (* the camera matrix *)
  C1 ← getattr self "C1" ≫= arr;
  RT ← getattr self "R" ≫= arr;
  C ← dot C1 RT;
  Ok (setattr "C" (VArr C) self).

Definition _initCameraMatrix (height tilt_angle roll_angle : option R)
    (self : gmap string value) : result (gmap string value) :=
  '(angle, roll, heading, height, self) ←
    pose_angles height tilt_angle roll_angle self;
  compose_camera_matrix angle roll heading height self.

(** *** Construction *)

(** [sensor_size] is either the width alone or the pair (width, height). *)
Inductive sensor_size_arg : Type :=
| SensorWidth (w : R)
| SensorPair (w h : R).

Definition __init__ (focal_length : option R)
    (sensor_size : option sensor_size_arg) (image_size : option (R * R))
    (observer_height angel_to_horizon : option R)
  : result (gmap string value) :=
  let self := class_attributes in
  b ← truthy (of_option focal_length);
  self ←
    (if b : bool then
       fl ← num (of_option focal_length);
       let self := setattr "f" (VNum (fl * 1e-3)) self in
       '(w, h) ← match image_size with
                 | Some wh => Ok wh
                 | None => Raise TypeError
                 end;
       let self := setattr "im_width" (VNum w) self in
       let self := setattr "im_height" (VNum h) self in
       '(sw, sh) ←
         match sensor_size with
         | Some (SensorWidth s) =>
             ih ← getattr self "im_height" ≫= num;
             iw ← getattr self "im_width" ≫= num;
             if decide (iw = 0) then Raise ZeroDivisionError
             else Ok (s, s * ih / iw)
         | Some (SensorPair sw sh) => Ok (sw, sh)
         | None => Raise TypeError
         end;
       let self := setattr "sensor_width" (VNum (sw * 1e-3)) self in
       let self := setattr "sensor_height" (VNum (sh * 1e-3)) self in
       sw ← getattr self "sensor_width" ≫= num;
       fm ← getattr self "f" ≫= num;
       let self := setattr "fov_h_angle" (VNum (2 * atan (sw / (2 * fm)))) self in
       sh ← getattr self "sensor_height" ≫= num;
       let self := setattr "fov_v_angle" (VNum (2 * atan (sh / (2 * fm)))) self in
       _initIntrinsicMatrix self
     else Ok self);
  match observer_height with
  | Some h =>
      let self := setattr "height" (VNum h) self in
      let self := setattr "tilt" (of_option angel_to_horizon) self in
      _initCameraMatrix None None None self
  | None => Ok self
  end.

(** *** Forward projection *)

(** A point argument: a one-dimensional array [[x, y, z]] (a plain list
    behaves the same way) or an array of points in the shape [3xN]. *)
Inductive ndarray : Type :=
| Arr1 (v : list R)
| Arr2 (m : matrix).

(** The reshaping of the input to two dimensions. *)
Definition as_columns (x : ndarray) : matrix :=
  match x with
  | Arr1 v => column v
  | Arr2 m => m
  end.

Definition transWorldToCam (self : gmap string value) (x : ndarray)
  : result matrix :=
  let x := as_columns x in
  x ← vstack x (ones (ncols x));
  C ← getattr self "C" ≫= arr;
  X ← dot C x;
  match X !! 2%nat with
  | Some depth => Ok (map (λ r, zip_with Rdiv r depth) (take 2 X))
  | None => Raise IndexError
  end.

(** *** Back-projection with one fixed coordinate *)

(** [P[:, dimension] = P[:, dimension] * fixed + P[:, 3]; P = P[:, :3]],
    row by row. *)
Definition reduce_row (fixed : R) (dimension : nat) (r : list R)
  : result (list R) :=
  match r !! dimension, r !! 3%nat with
  | Some d, Some l => Ok (take 3 (<[dimension := d * fixed + l]> r))
  | _, _ => Raise IndexError
  end.

(** The reduced matrix: a copy of the camera matrix with the column of
    the fixed dimension folded into the last one. *)
Definition reduced_matrix (self : gmap string value) (fixed : R)
    (dimension : nat) : result matrix :=
  C ← getattr self "C";
  P ← match C with
      | VArr m => Ok m
      | _ => Raise AttributeError       (* no [copy] on [None] or a float *)
      end;
  mapM (reduce_row fixed dimension) P.

Definition _transCamToWorldFixedDimension (self : gmap string value)
    (x : matrix) (fixed : R) (dimension : nat) : result matrix :=
  x ← vstack x (ones (ncols x));
  P ← reduced_matrix self fixed dimension;
  X ← solve P x;
  match X !! dimension with
  | Some s =>
      let X := map (λ r, zip_with Rdiv r s) X in
      Ok (<[dimension := map (λ _, fixed) s]> X)
  | None => Raise IndexError
  end.

(** The fixed value is a number, or a sequence with one value per point. *)
Inductive fixed_arg : Type :=
| Scalar (v : R)
| PerPoint (vs : list R).

(** [(X is None) + (Y is None) + (Z is None)] *)
Definition count_none (X Y Z : option fixed_arg) : nat :=
  (if X is None then 1 else 0) + (if Y is None then 1 else 0)
  + (if Z is None then 1 else 0).

Definition exactly_one_msg : string := "Exactly one of X, Y, Z has to be given.".

(** The second half of [transCamToWorld]: the input is reshaped and
    transformed, in one go for a number and point by point for a sequence. *)
Definition back_project (self : gmap string value) (x : ndarray)
    (fixed : fixed_arg) (dimension : nat) : result matrix :=
  let x := as_columns x in
  match fixed with
  | PerPoint vs =>
      cols ← mapM (λ i,
                match vs !! i with
                | Some v =>
                    p ← _transCamToWorldFixedDimension self
                          (map (λ r, take 1 (drop i r)) x) v dimension;
                    Ok (col 0 p)
                | None => Raise IndexError
                end) (seq 0 (ncols x));
      match cols with
      | [] => Raise IndexError
      | _ => Ok (transpose cols)
      end
  | Scalar v => _transCamToWorldFixedDimension self x v dimension
  end.

Definition transCamToWorld (self : gmap string value) (x : ndarray)
    (X Y Z : option fixed_arg) : result matrix :=
  if negb (count_none X Y Z =? 2)%nat then Raise (ValueError exactly_one_msg)
  else
    '(fixed, dimension) ←
      match X, Y, Z with
      | Some v, _, _ => Ok (v, 0%nat)
      | None, Some v, _ => Ok (v, 1%nat)
      | None, None, Some v => Ok (v, 2%nat)
      | None, None, None => Raise TypeError
      end;
    back_project self x fixed dimension.

(** *** Earth curvature: the fixed-point iteration of [transCamToEarth] *)

(** The state of the inner [for] loop when it ends: whether it ended by
    [break], and the variables [new_point] and [alpha], which the source
    keeps across the points of one call. *)
Record loop_end : Type := LoopEnd {
  broke : bool;
  last_new_point : option (list R);
  last_alpha : R
}.

(** The inner loop with [n] rounds left.  Next to the final state the
    function returns the number of rounds it ran, a ghost value that the
    source does not compute. *)
Fixpoint iterate (self : gmap string value) (point : list R)
    (r max_distance : R) (n : nat) (next_z : R)
    (last_point new_point : option (list R)) (alpha : R)
  : result (nat * loop_end) :=
  match n with
  | O => Ok (O, LoopEnd false new_point alpha)
  | S n' =>
      p ← _transCamToWorldFixedDimension self (column point) next_z 2;
      let new_point := col 0 p in
      match new_point !! 1%nat with
      | Some y =>
          let alpha := atan (y / r) in
          if match last_point with
             | Some lp =>
                 bool_decide (norm (zip_with Rminus new_point lp) < max_distance)
             | None => false
             end
          then Ok (1%nat, LoopEnd true (Some new_point) alpha)
          else
            let next_z := - (r / cos alpha - r) in
            '(k, e) ← iterate self point r max_distance n' next_z
                        (Some new_point) (Some new_point) alpha;
            Ok (S k, e)
      | None => Raise IndexError
      end
  end.





(** *** Earth curvature: the closed-form transforms

    Both take a point as a one-dimensional array [[x, y, z]], copy it and
    write into the copy.  Arrays are mutable and passed by reference, so
    they live in a heap: a finite map from locations to their contents.
    A method receives the camera and the heap and gives both back. *)

Definition np_copy (x : nat) (heap : gmap nat (list R))
  : result (nat * gmap nat (list R)) :=
  match heap !! x with
  | Some v => let l := fresh (dom heap) in Ok (l, <[l := v]> heap)
  | None => Raise AttributeError
  end.

(** [x[i]] *)
Definition getitem (x : nat) (i : nat) (heap : gmap nat (list R)) : result R :=
  match heap !! x with
  | Some v => match v !! i with Some e => Ok e | None => Raise IndexError end
  | None => Raise AttributeError
  end.

(** [x[i] = e] *)
Definition setitem (x : nat) (i : nat) (e : R) (heap : gmap nat (list R))
  : result (gmap nat (list R)) :=
  match heap !! x with
  | Some v =>
      if decide (i < length v)%nat then Ok (<[x := <[i := e]> v]> heap)
      else Raise IndexError
  | None => Raise AttributeError
  end.

(** [x - c] for one-dimensional arrays, with numpy's broadcasting of an
    operand of length one. *)
Definition broadcast_sub (x c : list R) : result (list R) :=
  if (length x =? length c)%nat then Ok (zip_with Rminus x c)
  else match x with
       | [e] => Ok (map (λ ci, e - ci) c)
       | _ => Raise (ValueError "operands could not be broadcast together")
       end.

Definition transWorldToEarth (x : nat)
    (w : gmap string value * gmap nat (list R))
  : result (nat * (gmap string value * gmap nat (list R))) :=
  let '(self, heap) := w in
  '(x, heap) ← np_copy x heap;
  Re ← getattr self "R_earth" ≫= num;
  let earth_center := [0; 0; - Re] in
  xv ← match heap !! x with Some v => Ok v | None => Raise AttributeError end;
  d ← broadcast_sub xv earth_center;
  let r_eff := norm d in
  x1 ← getitem x 1 heap;
  heap ← setitem x 1 (acos (x1 / r_eff) * r_eff) heap;
  heap ← setitem x 2 r_eff heap;
  Ok (x, (self, heap)).

Definition transEarthToWorld (x : nat)
    (w : gmap string value * gmap nat (list R))
  : result (nat * (gmap string value * gmap nat (list R))) :=
  let '(self, heap) := w in
  '(x, heap) ← np_copy x heap;
  x2 ← getitem x 2 heap;
  Re ← getattr self "R_earth" ≫= num;
  let radius := x2 + Re in
  x1 ← getitem x 1 heap;
  let alpha := x1 / radius in
  heap ← setitem x 1 (tan alpha * radius) heap;
  heap ← setitem x 2 (radius - radius * cos alpha) heap;
  Ok (x, (self, heap)).

(** *** Distance and bearing *)

Definition distanceBearing (self : gmap string value) (pos : list R)
  : result (R * R) :=
  p0 ← match pos !! 0%nat with Some e => Ok e | None => Raise IndexError end;
  px ← getattr self "pos_x" ≫= num;
  let x := p0 - px in
  p1 ← match pos !! 1%nat with Some e => Ok e | None => Raise IndexError end;
  py ← getattr self "pos_y" ≫= num;
  let y := p1 - py in
  let dist := sqrt (x ^ 2 + y ^ 2) in
  let bearing := - atan (x / y) * 180 / PI in
  Ok (dist, bearing).

(** *** Fitting: the choice of the free parameters *)

Definition fixRoll (roll : R) (self : gmap string value) : gmap string value :=
  setattr "roll" (VNum roll) self.

Definition fixHeight (height : R) (self : gmap string value) : gmap string value :=
  setattr "height" (VNum height) self.

(** The dictionary [estimates] of [_fit]; a Python dictionary keeps the
    order of insertion, which is the order of [fit_parameters]. *)
Definition estimates (self : gmap string value) : result (list (string * value)) :=
  eh ← getattr self "estimated_height";
  et ← getattr self "estimated_tilt";
  er ← getattr self "estimated_roll";
  ehd ← getattr self "estimated_heading";
  Ok [("height", eh); ("tilt", et); ("roll", er); ("heading", ehd);
      ("pos_x", VNum 0); ("pos_y", VNum 0)].

(** [l.remove(x)]: drops the first occurrence, [ValueError] if there is none. *)
Fixpoint list_remove (x : string) (l : list string) : result (list string) :=
  match l with
  | [] => Raise (ValueError "list.remove(x): x not in list")
  | y :: l' => if decide (x = y) then Ok l' else (y ::.) <$> list_remove x l'
  end.

(** [if self.<name> is not None: fit_parameters.remove(<name>)] *)
Definition remove_if_known (self : gmap string value) (name : string)
    (fit_parameters : list string) : result (list string) :=
  v ← getattr self name;
  if is_none v then Ok fit_parameters else list_remove name fit_parameters.

(** The removals of [_fit], in the order of the source. *)
Definition free_parameters (self : gmap string value) (names : list string)
  : result (list string) :=
  fp ← remove_if_known self "roll" names;
  fp ← remove_if_known self "heading" fp;
  fp ← remove_if_known self "height" fp;
  fp ← remove_if_known self "pos_x" fp;
  remove_if_known self "pos_y" fp.

(** [[estimates[key] for key in fit_parameters]] *)
Definition start_vector (estimates : list (string * value))
    (fit_parameters : list string) : result (list value) :=
  mapM (λ key, match (list_to_map estimates : gmap string value) !! key with
               | Some v => Ok v
               | None => Raise (KeyError key)
               end) fit_parameters.

(** [_fit] up to the call of [minimize]: the names of the free parameters,
    the start vector handed to the optimizer and the state, in which
    [horizon_error] has been reset.  The optimizer and the error function
    that it calls are not part of this development. *)
Definition _fit (self : gmap string value)
  : result (list string * list value * gmap string value) :=
  est ← estimates self;
  fit_parameters ← free_parameters self (est.*1);
  let self := setattr "horizon_error" (VNum 0) self in
  x0 ← start_vector est fit_parameters;
  Ok (fit_parameters, x0, self).

(** *** GPS positions

    A GPS position is a one-dimensional array [[lat, lon, h]] with the
    angles in degrees.  The camera keeps its own position in the numbers
    [lat] and [lon] and in the array [cam_location]; a one-dimensional array
    held by an attribute is stored as an array of one row. *)

Import NpAngle.




Definition moveGPS (self : gmap string value) (lat lon distance bearing : R)
  : result (R * R) :=
  let lat_rad := deg2rad lat in
  let lon_rad := deg2rad lon in
  let bearing_rad := deg2rad bearing in
  Re ← getattr self "R_earth" ≫= num;
  let lat2 :=
    asin (sin lat_rad * cos (distance / Re)
          + cos lat_rad * sin (distance / Re) * cos bearing_rad) in
  let lon2 :=
    lon_rad + arctan2 (sin bearing_rad * sin (distance / Re) * cos lat_rad)
                      (cos (distance / Re) - sin lat_rad * sin lat2) in
  Ok (rad2deg lat2, rad2deg lon2).




(** *** The horizon *)

(** The earth radius and the height are Python numbers, whose division by
    zero raises.  The square root of a negative number is [nan], which the
    reals do not have: the theorems on the horizon assume a height of at
    least 0 above an earth of positive radius. *)
Definition distanceToHorizon (self : gmap string value) : result R :=
  Re ← getattr self "R_earth" ≫= num;
  h ← getattr self "height" ≫= num;
  if decide (Re + h = 0) then Raise ZeroDivisionError
  else Ok (sqrt (2 * Re ^ 2 * (1 - Re / (Re + h)))).

(** [P[:, 1] = P[:, 1] * distance + P[:, 2] * 0 + P[:, 3]], row by row. *)
Definition horizon_row (distance : R) (r : list R) : result (list R) :=
  match r !! 1%nat, r !! 2%nat, r !! 3%nat with
  | Some a, Some b, Some c => Ok (<[1%nat := a * distance + b * 0 + c]> r)
  | _, _, _ => Raise IndexError
  end.

(** [P[:, 2] = [0, -1, 0]]: the three values go to the three rows. *)
Definition set_column_2 (P : matrix) : result matrix :=
  match P with
  | [r0; r1; r2] => Ok [<[2%nat := 0]> r0; <[2%nat := -1]> r1; <[2%nat := 0]> r2]
  | _ => Raise (ValueError "could not broadcast input array")
  end.

Definition getImageHorizon (self : gmap string value) : result matrix :=
  (* the distance to the horizon and a copy of the camera matrix *)
  distance ← distanceToHorizon self;
  C ← getattr self "C";
  P ← match C with
      | VArr m => Ok m
      | _ => Raise AttributeError
      end;
  (* 3D_Y fixed to the distance, 3D_Z to 0, 2D_Y brought to the other side *)
  P ← mapM (horizon_row distance) P;
  P ← set_column_2 P;
  let P := map (take 3) P in
  (* the left sides [2D_X, 0, 1] *)
  iw ← getattr self "im_width" ≫= num;
  let x := transpose [[0; 0; 1]; [iw / 2; 0; 1]; [iw; 0; 1]] in
  X ← solve P x;
  match X !! 2%nat with
  | Some ys => Ok (take 2 (<[1%nat := ys]> x))
  | None => Raise IndexError
  end.

(** The world positions of the four image corners on the plane [Z = 0].
    With an image size that is not a number the array of the corners cannot
    be converted for the solver, which numpy reports as a [TypeError] once
    the reduced matrix is built. *)
Definition getImageExtend (self : gmap string value) : result matrix :=
  ih ← getattr self "im_height";
  iw ← getattr self "im_width";
  match ih, iw with
  | VNum ih, VNum iw =>
      transCamToWorld self (Arr2 (transpose [[0; 0]; [0; ih]; [iw; ih]; [iw; 0]]))
        None None (Some (Scalar 0))
  | _, _ => _ ← reduced_matrix self 0 2; Raise TypeError
  end.

(** *** Saving and loading

    The file is represented by its decoded content, the dictionary that
    [json.dumps] writes and [json.loads] reads back: a list of keys with
    their values, in the order of the dictionary. *)

Definition save_keys : list string :=
  ["height"; "roll"; "heading"; "tilt"; "pos_x"; "pos_y";
   "f"; "sensor_width"; "sensor_height"; "fov_h_angle"; "fov_v_angle";
   "im_width"; "im_height"].

(** [json.dumps] refuses an array. *)
Definition json_serializable (v : value) : bool :=
  match v with VArr _ => false | _ => true end.

Definition save (self : gmap string value) : result (list (string * value)) :=
  export_dict ← mapM (λ key, v ← getattr self key; Ok (key, v)) save_keys;
  if forallb (λ kv, json_serializable kv.2) export_dict then Ok export_dict
  else Raise TypeError.

Definition load (variables : list (string * value)) (self : gmap string value)
  : result (gmap string value) :=
  let self := foldl (λ self kv, setattr kv.1 kv.2 self) self variables in
  self ← _initIntrinsicMatrix self;
  _initCameraMatrix None None None self.

(** *** Fitting to objects of equal height

    [fitCamParametersFromObjects] takes the feet and the heads of the
    objects as arrays of pixels in the shape [2xN], or as lines from one end
    of each object to the other, and hands the closure [cost] to [_fit]. *)

(** A line of ClickPoints, with its two ends. *)
Record line : Type := Line { x1 : R; y1 : R; x2 : R; y2 : R }.

(** The arrays [points_foot] and [points_head] built from [lines]: the foot
    is the end with the larger image row. *)
Definition line_points (lines : list line) : matrix * matrix :=
  let ys1 := map (λ l, Rmax (y1 l) (y2 l)) lines in
  let ys2 := map (λ l, Rmin (y1 l) (y2 l)) lines in
  let xs := map (λ l, (x1 l + x2 l) / 2) lines in
  ([xs; ys1], [xs; ys2]).

(** The length of an axis of the result of an operation on two arrays: the
    two lengths are equal, or one of them is 1. *)
Definition broadcast_length (n m : nat) : result nat :=
  if decide (n = m) then Ok n
  else if decide (n = 1%nat) then Ok m
  else if decide (m = 1%nat) then Ok n
  else Raise (ValueError "operands could not be broadcast together").

(** An axis of length 1 is repeated. *)
Definition stretch {A} (n : nat) (l : list A) : list A :=
  match l with
  | [a] => replicate n a
  | _ => l
  end.

(** [a - b] for two-dimensional arrays. *)
Definition broadcast_minus (a b : matrix) : result matrix :=
  r ← broadcast_length (nrows a) (nrows b);
  c ← broadcast_length (ncols a) (ncols b);
  Ok (zip_with (λ u v, zip_with Rminus (stretch c u) (stretch c v))
        (stretch r a) (stretch r b)).

(** [X[2, :] = v] *)
Definition set_row_2 (v : R) (X : matrix) : result matrix :=
  match X !! 2%nat with
  | Some r => Ok (<[2%nat := map (λ _, v) r]> X)
  | None => Raise IndexError
  end.

(** [np.mean] of a one-dimensional array that is not empty. *)
Definition mean (l : list R) : R := foldr Rplus 0 l / INR (length l).

(** The closure [cost] of [fitCamParametersFromObjects]: the mean squared
    distance, in pixels, between the heads and the projections of the points
    [object_height] above the back-projected feet. *)
Definition cost (self : gmap string value) (points_foot points_head : matrix)
    (object_height object_elevation : R) : result R :=
  estimated_foot_3D ←
    transCamToWorld self (Arr2 points_foot) None None (Some (Scalar object_elevation));
  estimated_foot_3D ← set_row_2 (object_elevation + object_height) estimated_foot_3D;
  estimated_head ← transWorldToCam self (Arr2 estimated_foot_3D);
  d ← broadcast_minus points_head estimated_head;
  let pixels := map norm (transpose d) in
  Ok (mean (map (λ p, p ^ 2) pixels)).

End CameraTransform.

(** ** The composition of the camera matrix in the specification's words *)

Module Composition.

(** The entry of [a] in row [i] and column [j]. *)
Definition entry (a : matrix) (i j : nat) : R := nth j (nth i a []) 0.

(** The product of an [n]x[k] and a [k]x[m] matrix: entry (i, j) is the sum
    over [l] of [a(i,l) * b(l,j)]. *)
Definition product (n k m : nat) (a b : matrix) : matrix :=
  map (λ i, map (λ j,
    foldr Rplus 0 (map (λ l, entry a i l * entry b l j) (seq 0 k)))
    (seq 0 m)) (seq 0 n).

(** The 4x4 rigid transform [[R | t], [0 0 0 1]] of a 3x3 rotation block
    [rot] and a translation column [t]. *)
Definition rigid (rot t : matrix) : matrix :=
  map (λ i, [entry rot i 0; entry rot i 1; entry rot i 2; entry t i 0]) (seq 0 3)
  ++ [[0; 0; 0; 1]].

End Composition.

Import Np CameraTransform Composition.

(** ** States used in the statements *)

(** The state after the second half of [_initCameraMatrix]: the attributes
    it assigns, in the order of the assignments. *)
Definition rebuilt (angle roll heading px py h : R) (K : matrix)
    (self : gmap string value) : gmap string value :=
  let t' := mmul (rot_tilt angle) (column [px; py; - h]) in
  let RT :=
    zip_with app (mmul (mmul (rot_z roll) (rot_tilt angle)) (rot_z heading)) t'
    ++ [[0; 0; 0; 1]] in
  setattr "C" (VArr (mmul K RT))
    (setattr "R" (VArr RT)
      (setattr "t" (VArr t')
        (setattr "R_head" (VArr (rot_z heading))
          (setattr "R_roll" (VArr (rot_z roll))
            (setattr "R_tilt" (VArr (rot_tilt angle))
              (setattr "t" (VArr (column [px; py; - h])) self)))))).

(** The depth of a world point [p]: the third homogeneous coordinate
    [X[2]], by which [transWorldToCam] divides. *)
Definition depth (self : gmap string value) (p : list R) : result R :=
  C ← getattr self "C" ≫= arr;
  X ← dot C (column (p ++ [1]));
  match X !! 2%nat with
  | Some [d] => Ok d
  | _ => Raise IndexError
  end.

(** The number of fixed-axis arguments that a call of [transCamToWorld]
    supplies. *)
Definition supplied (X Y Z : option fixed_arg) : nat :=
  ((if X is Some _ then 1 else 0) + (if Y is Some _ then 1 else 0)
   + (if Z is Some _ then 1 else 0))%nat.

(** The pose parameters, in the order of the dictionary [estimates]. *)
Definition pose_parameters : list string :=
  ["height"; "tilt"; "roll"; "heading"; "pos_x"; "pos_y"].

(** A parameter is fixed when its attribute holds a value other than [None]. *)
Definition fixed_parameter (self : gmap string value) (name : string) : bool :=
  match self !! name with
  | Some VNone | None => false
  | Some _ => true
  end.

(** Every instance can read the attributes of its class: assignments only
    add or overwrite attributes. *)
Definition instance (self : gmap string value) : Prop :=
  ∀ name, name ∈ class_attribute_list.*1 → is_Some (self !! name).

(** The state after the intrinsic part of [__init__], for a focal length
    [fl], a sensor of [sw] x [sh] and an image of [w] x [h]. *)
Definition intrinsic_matrix (fl sw w h : R) : matrix :=
  let f_normed := fl * 1e-3 / (sw * 1e-3) * w in
  [[f_normed; 0; w / 2; 0]; [0; f_normed; h / 2; 0]; [0; 0; 1; 0]].

Definition intrinsic_state (fl sw sh w h : R) : gmap string value :=
  setattr "C1" (VArr (intrinsic_matrix fl sw w h))
    (setattr "f_normed" (VNum (fl * 1e-3 / (sw * 1e-3) * w))
      (setattr "fov_v_angle" (VNum (2 * atan (sh * 1e-3 / (2 * (fl * 1e-3)))))
        (setattr "fov_h_angle" (VNum (2 * atan (sw * 1e-3 / (2 * (fl * 1e-3)))))
          (setattr "sensor_height" (VNum (sh * 1e-3))
            (setattr "sensor_width" (VNum (sw * 1e-3))
              (setattr "im_height" (VNum h)
                (setattr "im_width" (VNum w)
                  (setattr "f" (VNum (fl * 1e-3)) class_attributes)))))))).

(** The state of [__init__] before it builds the camera matrix: the
    intrinsic state for a sensor width [s], with the observer height and the
    tilt angle stored. *)
Definition posed (fl s w h oh tilt : R) : gmap string value :=
  setattr "tilt" (VNum tilt)
    (setattr "height" (VNum oh) (intrinsic_state fl s (s * h / w) w h)).

(** The camera that [__init__] builds from a focal length, a sensor width,
    an image size, an observer height and a tilt angle: no roll, no heading,
    at the origin. *)
Definition camera (fl s w h oh tilt : R) : gmap string value :=
  rebuilt (tilt * PI / 180) 0 0 0 0 oh (intrinsic_matrix fl s w h)
    (posed fl s w h oh tilt).

(** The same state rebuilt after [tan_tilt] was set to [v]. *)
Definition camera_tan_tilt (fl s w h oh tilt v : R) : gmap string value :=
  rebuilt (PI / 2 - atan v) 0 0 0 0 oh (intrinsic_matrix fl s w h)
    (setattr "tilt" (VNum ((PI / 2 - atan v) * 180 / PI))
       (setattr "tan_tilt" (VNum v) (posed fl s w h oh tilt))).

(** What the specification says of the state [self'] after a rebuild from
    the intrinsic matrix [K]: the translation rotated by the tilt alone, the
    rotation block [R_roll * R_tilt * R_head], the rigid transform of the
    two, and the camera matrix [K * [R | t']]. *)
Definition rigid_composition (K : matrix) (self' : gmap string value) : Prop :=
  ∃ px py hh tilt roll heading,
    self' !! "pos_x" = Some (VNum px) ∧ self' !! "pos_y" = Some (VNum py)
    ∧ self' !! "height" = Some (VNum hh) ∧ self' !! "tilt" = Some (VNum tilt)
    ∧ let R_tilt := rot_tilt (tilt * PI / 180) in
      let R_roll := rot_z roll in
      let R_head := rot_z heading in
      let t' := product 3 3 1 R_tilt (column [px; py; - hh]) in
      let RT := rigid (product 3 3 3 (product 3 3 3 R_roll R_tilt) R_head) t' in
      self' !! "R_tilt" = Some (VArr R_tilt)
      ∧ self' !! "R_roll" = Some (VArr R_roll)
      ∧ self' !! "R_head" = Some (VArr R_head)
      ∧ self' !! "t" = Some (VArr t')
      ∧ self' !! "R" = Some (VArr RT)
      ∧ self' !! "C1" = Some (VArr K)
      ∧ self' !! "C" = Some (VArr (product 3 4 4 K RT)).


(** [transEarthToWorld(transWorldToEarth(x))], read back from the heap. *)
Definition earth_world_roundtrip (x : nat)
    (w : gmap string value * gmap nat (list R)) : result (list R) :=
  '(x1, w1) ← transWorldToEarth x w;
  '(x2, w2) ← transEarthToWorld x1 w1;
  match w2.2 !! x2 with
  | Some v => Ok v
  | None => Raise AttributeError
  end.

(** *** The fixed-point iteration, round by round *)






(** *** Arrays of points *)

(** The solution [X] of the linear system of
    [_transCamToWorldFixedDimension], before it is rescaled: the row of the
    fixed dimension holds the projective scale of each point. *)
Definition homogeneous_solution (self : gmap string value) (x : matrix)
    (fixed : R) (dimension : nat) : result matrix :=
  x ← vstack x (ones (ncols x));
  P ← reduced_matrix self fixed dimension;
  solve P x.

(** The world points of the plane on which the coordinate [dimension] is
    [c], as an array [3xN]: the list [q] gives the two other coordinates of
    each point. *)
Definition plane_points (dimension : nat) (c : R) (q : list (R * R)) : matrix :=
  match dimension with
  | 0%nat => [map (λ _, c) q; q.*1; q.*2]
  | 1%nat => [q.*1; map (λ _, c) q; q.*2]
  | _ => [q.*1; q.*2; map (λ _, c) q]
  end.

(** The 3x3 identity matrix. *)
Definition eye3 : matrix := [[1; 0; 0]; [0; 1; 0]; [0; 0; 1]].

(** The argument [X], [Y] or [Z] of [transCamToWorld] for the axis [axis],
    when the value [fixed] is supplied for the axis [dimension] alone. *)
Definition on_axis (dimension : nat) (fixed : fixed_arg) (axis : nat)
  : option fixed_arg :=
  if decide (axis = dimension) then Some fixed else None.

(** [transCamToWorld] called with [fixed] for the axis [dimension]. *)
Definition transCamToWorld_on (self : gmap string value) (x : ndarray)
    (dimension : nat) (fixed : fixed_arg) : result matrix :=
  transCamToWorld self x (on_axis dimension fixed 0) (on_axis dimension fixed 1)
    (on_axis dimension fixed 2).

(** *** The rounds that are run *)





(** A line with its ends exchanged. *)
Definition reversed (l : line) : line :=
  {| x1 := x2 l; y1 := y2 l; x2 := x1 l; y2 := y1 l |}.

(** ** Stepping through the embedded code *)

Lemma getattr_Ok self k v : getattr self k = Ok v ↔ self !! k = Some v.
Proof. unfold getattr. destruct (self !! k); split; congruence. Qed.

Lemma num_Ok v r : num v = Ok r ↔ v = VNum r.
Proof. destruct v; cbn; split; congruence. Qed.

Lemma dot_ok a b : ncols a = nrows b → dot a b = Ok (mmul a b).
Proof. intros H. unfold dot. by rewrite H, Nat.eqb_refl. Qed.

Lemma hstack_ok a b : nrows a = nrows b → hstack a b = Ok (zip_with app a b).
Proof. intros H. unfold hstack. by rewrite H, Nat.eqb_refl. Qed.

Lemma vstack_ok m r : ncols m = length r → vstack m r = Ok (m ++ [r]).
Proof. intros H. unfold vstack. by rewrite H, Nat.eqb_refl. Qed.

(** Reading a class attribute. *)
Lemma class_attribute_names_NoDup : NoDup (class_attribute_list.*1).
Proof. apply (bool_decide_unpack _). vm_compute. reflexivity. Qed.

Lemma class_attributes_lookup k v :
  (k, v) ∈ class_attribute_list → class_attributes !! k = Some v.
Proof. apply elem_of_list_to_map_1, class_attribute_names_NoDup. Qed.

Lemma class_attributes_absent k :
  k ∉ class_attribute_list.*1 → class_attributes !! k = None.
Proof. apply not_elem_of_list_to_map_1. Qed.

Ltac class_lookup :=
  match goal with
  | |- context [class_attributes !! ?k] =>
      let H := fresh in
      first
        [ eassert (H : class_attributes !! k = Some _)
            by (apply class_attributes_lookup; unfold class_attribute_list;
                repeat first [apply list_elem_of_here | apply list_elem_of_further])
        | assert (H : class_attributes !! k = None)
            by (apply class_attributes_absent, (bool_decide_unpack _);
                vm_compute; reflexivity) ];
      rewrite H; clear H
  end.

(** Lookups after assignments. *)
Ltac attrs :=
  repeat first
    [ rewrite lookup_insert_eq
    | rewrite lookup_insert_ne by done ].

(** One step of a run whose attribute reads are known. *)
Ltac run_step :=
  first
    [ progress (unfold getattr, setattr)
    | progress (cbn [mbind result_bind num arr truthy is_none of_option])
    | progress attrs
    | rewrite dot_ok by (first [assumption | reflexivity])
    | rewrite hstack_ok by reflexivity
    | rewrite vstack_ok by reflexivity
    | class_lookup
    | match goal with
      | H : ?m !! ?k = _ |- context [?m !! ?k] => rewrite H
      end ].

Ltac run := repeat run_step.

(** Evaluation of the array operations on explicit shapes. *)
Ltac np_cbn :=
  cbn [as_columns column vstack hstack dot mmul transpose col ncols nrows ones
       replicate dotp foldr zip_with map seq nth length Nat.eqb negb app
       lookup list_lookup take drop insert list_insert mapM reduce_row
       mbind result_bind num arr fmap list_fmap].

(** Inversion of a successful bind. *)
Tactic Notation "inv_bind" hyp(H) "as" simple_intropattern(x) ident(E) :=
  lazymatch type of H with
  | (?m ≫= _) = Ok _ =>
      destruct m as [x|] eqn:E; [ cbn [mbind result_bind] in H | discriminate H ]
  end.

(** ** Construction *)

Lemma init_intrinsics fl sw sh w h :
  fl ≠ 0 →
  __init__ (Some fl) (Some (SensorPair sw sh)) (Some (w, h)) None None
  = Ok (intrinsic_state fl sw sh w h).
Proof.
  intros Hf. unfold __init__. cbn [of_option truthy mbind result_bind].
  rewrite bool_decide_true by done.
  cbn [mbind result_bind num]. unfold _initIntrinsicMatrix. run.
  reflexivity.
Qed.

Lemma init_intrinsics_width fl s w h :
  fl ≠ 0 → w ≠ 0 →
  __init__ (Some fl) (Some (SensorWidth s)) (Some (w, h)) None None
  = Ok (intrinsic_state fl s (s * h / w) w h).
Proof.
  intros Hf Hw. unfold __init__. cbn [of_option truthy mbind result_bind].
  rewrite bool_decide_true by done.
  cbn [mbind result_bind num]. run. rewrite decide_False by done.
  unfold _initIntrinsicMatrix. run.
  reflexivity.
Qed.

Lemma init_zero_focal sensor_size image_size :
  __init__ (Some 0) sensor_size image_size None None = Ok class_attributes.
Proof.
  unfold __init__. cbn [of_option truthy mbind result_bind].
  by rewrite bool_decide_false by (by intros ?).
Qed.

(** Claim C7, as amended.  The constructor validates nothing: for a focal
    length other than zero, a sensor pair of nonzero width and an image size,
    of whatever sign, it returns a camera and stores the values, the lengths
    scaled to metres.  (The hypothesis on the sensor width only keeps the
    quotient [f / sensor_width] within the real numbers.) *)
Theorem init_accepts_any_sign fl sw sh w h :
  fl ≠ 0 → sw ≠ 0 →
  ∃ self,
    __init__ (Some fl) (Some (SensorPair sw sh)) (Some (w, h)) None None = Ok self
    ∧ self !! "f" = Some (VNum (fl * 1e-3))
    ∧ self !! "sensor_width" = Some (VNum (sw * 1e-3))
    ∧ self !! "sensor_height" = Some (VNum (sh * 1e-3))
    ∧ self !! "im_width" = Some (VNum w)
    ∧ self !! "im_height" = Some (VNum h)
    ∧ self !! "C1" = Some (VArr (intrinsic_matrix fl sw w h)).
Proof.
  intros Hf _. exists (intrinsic_state fl sw sh w h).
  split; [by apply init_intrinsics|].
  repeat split; unfold intrinsic_state, setattr; by attrs.
Qed.

(** Claim C7 as amended, on the concrete scenario. *)
Lemma init_accepts_any_sign_witness :
  ∃ self,
    __init__ (Some 16) (Some (SensorPair 10 7.5)) (Some (4000, 3000)) None None
    = Ok self
    ∧ self !! "f" = Some (VNum (16 * 1e-3))
    ∧ self !! "sensor_width" = Some (VNum (10 * 1e-3))
    ∧ self !! "sensor_height" = Some (VNum (7.5 * 1e-3))
    ∧ self !! "im_width" = Some (VNum 4000)
    ∧ self !! "im_height" = Some (VNum 3000)
    ∧ self !! "C1" = Some (VArr (intrinsic_matrix 16 10 4000 3000)).
Proof. apply (init_accepts_any_sign 16 10 7.5 4000 3000); lra. Defined.

(** Claim C7 as stated fails: a negative focal length, negative sensor
    dimensions and negative image dimensions are accepted and stored. *)
Lemma init_accepts_negative_inputs :
  ∃ self,
    __init__ (Some (-16)) (Some (SensorPair (-10) (-7.5))) (Some (-4000, -3000))
      None None = Ok self
    ∧ self !! "f" = Some (VNum (-16 * 1e-3))
    ∧ self !! "sensor_width" = Some (VNum (-10 * 1e-3))
    ∧ self !! "sensor_height" = Some (VNum (-7.5 * 1e-3))
    ∧ self !! "im_width" = Some (VNum (-4000))
    ∧ self !! "im_height" = Some (VNum (-3000)).
Proof.
  exists (intrinsic_state (-16) (-10) (-7.5) (-4000) (-3000)).
  split; [apply init_intrinsics; lra|].
  repeat split; unfold intrinsic_state, setattr; by attrs.
Qed.

(** ** The camera matrix *)

Lemma compose_camera_matrix_ok angle roll heading px py h K self :
  self !! "pos_x" = Some (VNum px) →
  self !! "pos_y" = Some (VNum py) →
  self !! "C1" = Some (VArr K) →
  ncols K = 4%nat →
  compose_camera_matrix angle roll heading (VNum h) self
  = Ok (rebuilt angle roll heading px py h K self).
Proof.
  intros Hx Hy HK Hn. unfold compose_camera_matrix, rebuilt. run. done.
Qed.

Lemma compose_camera_matrix_inv angle roll heading hv self self' :
  compose_camera_matrix angle roll heading hv self = Ok self' →
  ∃ px py h K,
    hv = VNum h ∧ self !! "pos_x" = Some (VNum px)
    ∧ self !! "pos_y" = Some (VNum py)
    ∧ self !! "C1" = Some (VArr K) ∧ ncols K = 4%nat
    ∧ self' = rebuilt angle roll heading px py h K self.
Proof.
  intros H.
  assert (∃ px py h K, hv = VNum h ∧ self !! "pos_x" = Some (VNum px)
    ∧ self !! "pos_y" = Some (VNum py)
    ∧ self !! "C1" = Some (VArr K) ∧ ncols K = 4%nat)
    as (px & py & h & K & -> & Hx & Hy & HK & Hn).
  { revert H. unfold compose_camera_matrix, getattr.
    destruct (self !! "pos_x") as [[| px |]|] eqn:Ex; try discriminate;
    destruct (self !! "pos_y") as [[| py |]|] eqn:Ey; try discriminate;
    destruct hv as [| h |]; try discriminate.
    run.
    destruct (self !! "C1") as [[| | K]|] eqn:EK; try discriminate.
    run. unfold dot. destruct (ncols K =? _)%nat eqn:En; [|discriminate].
    intros _. exists px, py, h, K. apply Nat.eqb_eq in En. done. }
  rewrite (compose_camera_matrix_ok _ _ _ _ _ _ _ _ Hx Hy HK Hn) in H.
  injection H as <-. by exists px, py, h, K.
Qed.

Lemma pose_angles_inv h ta ra self angle roll heading hv self1 :
  pose_angles h ta ra self = Ok (angle, roll, heading, hv, self1) →
  (∀ k, k ≠ "tilt" → k ≠ "height" → self1 !! k = self !! k)
  ∧ self1 !! "height" = Some hv
  ∧ ∃ tt, self !! "tan_tilt" = Some tt
    ∧ ((∃ v, tt = VNum v ∧ v ≠ 0 ∧ angle = PI / 2 - atan v
              ∧ self1 !! "tilt" = Some (VNum (angle * 180 / PI)))
       ∨ (truthy tt = Ok false
          ∧ ∃ a, self1 !! "tilt" = Some (VNum a) ∧ angle = a * PI / 180)).
Proof.
  unfold pose_angles. intros H.
  inv_bind H as [tv s1] Et.
  inv_bind H as [hv' s2] Eh.
  inv_bind H as a Ea. apply num_Ok in Ea as ->.
  inv_bind H as roll' Er. inv_bind H as hd Ehd. inv_bind H as b Eb.
  inv_bind H as heading' Ehg. inv_bind H as tt Ett. inv_bind H as b' Eb'.
  assert ((∀ k, k ≠ "tilt" → s1 !! k = self !! k) ∧ s1 !! "tilt" = Some (VNum a))
    as [F1 T1].
  { unfold setattr in Et. destruct ta.
    - injection Et as <- <-. split; [intros; by rewrite lookup_insert_ne|].
      by rewrite lookup_insert_eq.
    - inv_bind Et as v Ev. injection Et as <- <-. by apply getattr_Ok in Ev. }
  assert ((∀ k, k ≠ "height" → s2 !! k = s1 !! k) ∧ s2 !! "height" = Some hv')
    as [F2 T2].
  { unfold setattr in Eh. destruct h.
    - injection Eh as <- <-. split; [intros; by rewrite lookup_insert_ne|].
      by rewrite lookup_insert_eq.
    - inv_bind Eh as v Ev. injection Eh as <- <-. by apply getattr_Ok in Ev. }
  apply getattr_Ok in Ett. rewrite F2, F1 in Ett by done.
  unfold setattr in H. destruct b'.
  - inv_bind H as v Ev. injection H as <- <- <- <- <-.
    apply num_Ok in Ev as ->.
    cbn in Eb'. injection Eb' as Eb'. apply bool_decide_eq_true in Eb'.
    split; [|split].
    + intros k ? ?. rewrite lookup_insert_ne by done. rewrite F2, F1; done.
    + by rewrite lookup_insert_ne.
    + exists (VNum v). split; [done|]. left. exists v. repeat split; try done.
      by rewrite lookup_insert_eq.
  - injection H as <- <- <- <- <-.
    split; [|split].
    + intros k ? ?. rewrite F2, F1; done.
    + done.
    + exists tt. split; [done|]. right. split; [done|]. exists a. split; [|done].
      by rewrite F2.
Qed.

(** What a successful rebuild leaves behind. *)
Lemma initCameraMatrix_inv h ta ra self self' :
  _initCameraMatrix h ta ra self = Ok self' →
  ∃ angle roll heading px py hh K self1,
    pose_angles h ta ra self = Ok (angle, roll, heading, VNum hh, self1)
    ∧ self1 !! "pos_x" = Some (VNum px) ∧ self1 !! "pos_y" = Some (VNum py)
    ∧ self1 !! "C1" = Some (VArr K) ∧ ncols K = 4%nat
    ∧ self' = rebuilt angle roll heading px py hh K self1.
Proof.
  unfold _initCameraMatrix. intros H.
  inv_bind H as [[[[angle roll] heading] hv] self1] E.
  apply compose_camera_matrix_inv in H as (px & py & hh & K & -> & ? & ? & ? & ? & ->).
  by exists angle, roll, heading, px, py, hh, K, self1.
Qed.

Lemma angle_degrees (angle : R) : angle * 180 / PI * PI / 180 = angle.
Proof. field. apply PI_neq0. Qed.

Lemma initCameraMatrix_tilt h ta ra self self' :
  _initCameraMatrix h ta ra self = Ok self' →
  ∃ angle roll heading px py hh K self1 td,
    pose_angles h ta ra self = Ok (angle, roll, heading, VNum hh, self1)
    ∧ self1 !! "pos_x" = Some (VNum px) ∧ self1 !! "pos_y" = Some (VNum py)
    ∧ self1 !! "C1" = Some (VArr K) ∧ ncols K = 4%nat
    ∧ self1 !! "tilt" = Some (VNum td) ∧ angle = td * PI / 180
    ∧ self' = rebuilt angle roll heading px py hh K self1.
Proof.
  intros H. apply initCameraMatrix_inv in H
    as (angle & roll & heading & px & py & hh & K & self1 & E & Hx & Hy & HK & Hn & ->).
  destruct (pose_angles_inv _ _ _ _ _ _ _ _ _ E)
    as (_ & _ & tt & _ & [(v & _ & _ & Ha & Ht)|(_ & a & Ht & Ha)]).
  - exists angle, roll, heading, px, py, hh, K, self1, (angle * 180 / PI).
    repeat split; try done. by rewrite angle_degrees.
  - by exists angle, roll, heading, px, py, hh, K, self1, a.
Qed.

Lemma rebuilt_frame angle roll heading px py h K self k :
  k ≠ "C" → k ≠ "R" → k ≠ "t" → k ≠ "R_head" → k ≠ "R_roll" → k ≠ "R_tilt" →
  rebuilt angle roll heading px py h K self !! k = self !! k.
Proof. intros. unfold rebuilt, setattr. cbn zeta. by rewrite !lookup_insert_ne. Qed.

(** Claim C5.  After every successful rebuild of the camera matrix, [t] is
    the translation [(pos_x, pos_y, -height)] rotated by the tilt alone, [R]
    is the rigid transform of [R_roll * R_tilt * R_head] and that [t], and
    [C] is the intrinsic matrix times [R]; the products are those of
    [Composition], written entry by entry. *)
Theorem initCameraMatrix_composition self h ta ra self'
    k11 k12 k13 k14 k21 k22 k23 k24 k31 k32 k33 k34 :
  let K := [[k11; k12; k13; k14]; [k21; k22; k23; k24]; [k31; k32; k33; k34]] in
  self !! "C1" = Some (VArr K) →
  _initCameraMatrix h ta ra self = Ok self' →
  rigid_composition K self'.
Proof.
  intros K HK H.
  apply initCameraMatrix_tilt in H
    as (angle & roll & heading & px & py & hh & K' & self1 & td & E & Hx & Hy
        & HK' & Hn & Ht & -> & ->).
  destruct (pose_angles_inv _ _ _ _ _ _ _ _ _ E) as (F & Hh & _).
  rewrite F, HK in HK' by done. injection HK' as <-.
  exists px, py, hh, td, roll, heading.
  rewrite !rebuilt_frame by done.
  repeat split;
    first [ done
          | rewrite rebuilt_frame by done; by rewrite F
          | unfold rebuilt, setattr; cbn zeta; attrs; done ].
Qed.

(** In particular the camera matrix of a camera with a 3x4 intrinsic matrix
    is a 3x4 matrix, the shape that the statements about projection ask for. *)
Lemma initCameraMatrix_shape self h ta ra self'
    k11 k12 k13 k14 k21 k22 k23 k24 k31 k32 k33 k34 :
  self !! "C1" = Some (VArr [[k11; k12; k13; k14]; [k21; k22; k23; k24];
                             [k31; k32; k33; k34]]) →
  _initCameraMatrix h ta ra self = Ok self' →
  ∃ c11 c12 c13 c14 c21 c22 c23 c24 c31 c32 c33 c34,
    self' !! "C" = Some (VArr [[c11; c12; c13; c14]; [c21; c22; c23; c24];
                               [c31; c32; c33; c34]]).
Proof.
  intros HK H.
  apply initCameraMatrix_inv in H
    as (angle & roll & heading & px & py & hh & K & self1 & E & _ & _ & HK' & _ & ->).
  destruct (pose_angles_inv _ _ _ _ _ _ _ _ _ E) as (F & _ & _).
  rewrite F, HK in HK' by done. injection HK' as <-.
  do 12 eexists. unfold rebuilt, setattr. cbn zeta. rewrite lookup_insert_eq.
  reflexivity.
Qed.

(** Claim C9.  Whenever the camera matrix is rebuilt while [tan_tilt] holds
    a number other than zero, the tilt rotation is built from the angle
    [pi/2 - atan(tan_tilt)] and that angle, in degrees, is stored in [tilt],
    whatever tilt was passed to the call or stored before. *)
Theorem initCameraMatrix_tan_tilt self h ta ra self' v :
  self !! "tan_tilt" = Some (VNum v) → v ≠ 0 →
  _initCameraMatrix h ta ra self = Ok self' →
  self' !! "tilt" = Some (VNum ((PI / 2 - atan v) * 180 / PI))
  ∧ self' !! "R_tilt" = Some (VArr (rot_tilt (PI / 2 - atan v))).
Proof.
  intros Hv Hne H.
  apply initCameraMatrix_inv in H
    as (angle & roll & heading & px & py & hh & K & self1 & E & Hx & Hy & HK & Hn & ->).
  destruct (pose_angles_inv _ _ _ _ _ _ _ _ _ E)
    as (_ & _ & tt & Htt & [(v' & -> & _ & -> & Ht)|(Hf & _)]);
    rewrite Hv in Htt; injection Htt as <-.
  - rewrite rebuilt_frame by done. split; [done|].
    unfold rebuilt, setattr; cbn zeta; attrs; done.
  - cbn in Hf. injection Hf as Hf. by apply bool_decide_eq_false in Hf.
Qed.

(** ** The camera of the concrete scenario *)

Lemma init_camera fl s w h oh tilt :
  fl ≠ 0 → w ≠ 0 →
  __init__ (Some fl) (Some (SensorWidth s)) (Some (w, h)) (Some oh) (Some tilt)
  = Ok (camera fl s w h oh tilt).
Proof.
  intros Hf Hw. unfold __init__. cbn [of_option truthy mbind result_bind].
  rewrite bool_decide_true by done.
  cbn [mbind result_bind num]. run. rewrite decide_False by done.
  unfold _initIntrinsicMatrix. run.
  unfold _initCameraMatrix, pose_angles. run.
  rewrite bool_decide_false by (intros ?; lra). run.
  rewrite compose_camera_matrix_ok with (px := 0) (py := 0) (K := intrinsic_matrix fl s w h);
    [reflexivity | by attrs; class_lookup .. | by attrs | reflexivity].
Qed.

Lemma camera_C fl s w h oh tilt :
  let F := fl * 1e-3 / (s * 1e-3) * w in
  let a := tilt * PI / 180 in
  camera fl s w h oh tilt !! "C"
  = Some (VArr [[F; - (w / 2) * sin a; w / 2 * cos a; - (w / 2) * oh * cos a];
                [0; F * cos a - h / 2 * sin a; F * sin a + h / 2 * cos a;
                 - F * oh * sin a - h / 2 * oh * cos a];
                [0; - sin a; cos a; - oh * cos a]]).
Proof.
  intros F a. unfold camera, rebuilt, setattr. cbn zeta. attrs.
  unfold intrinsic_matrix, rot_z, rot_tilt. fold F a. np_cbn.
  rewrite cos_0, sin_0.
  do 2 f_equal. repeat (f_equal; try ring).
Qed.

Ltac camera_lookup :=
  unfold camera, rebuilt, posed, intrinsic_state, setattr; cbn zeta; attrs;
  try class_lookup; reflexivity.

Lemma camera_tilt fl s w h oh tilt :
  camera fl s w h oh tilt !! "tilt" = Some (VNum tilt).
Proof. camera_lookup. Qed.

Lemma rebuild_posed fl s w h oh tilt :
  _initCameraMatrix None None None (posed fl s w h oh tilt)
  = Ok (camera fl s w h oh tilt).
Proof.
  unfold _initCameraMatrix, pose_angles, posed, intrinsic_state. run.
  rewrite bool_decide_false by (intros ?; lra). run.
  rewrite compose_camera_matrix_ok with (px := 0) (py := 0) (K := intrinsic_matrix fl s w h);
    [reflexivity | by attrs; class_lookup .. | by attrs | reflexivity].
Qed.

Lemma rebuild_tan_tilt fl s w h oh tilt v :
  v ≠ 0 →
  _initCameraMatrix None None None (setattr "tan_tilt" (VNum v) (posed fl s w h oh tilt))
  = Ok (camera_tan_tilt fl s w h oh tilt v).
Proof.
  intros Hv. unfold _initCameraMatrix, pose_angles, posed, intrinsic_state. run.
  rewrite (bool_decide_false (0 ≠ 0)) by (intros ?; lra). run.
  rewrite (bool_decide_true (v ≠ 0)) by done. run.
  rewrite compose_camera_matrix_ok with (px := 0) (py := 0) (K := intrinsic_matrix fl s w h);
    [reflexivity | by attrs; class_lookup .. | by attrs | reflexivity].
Qed.

(** Claim C5 on the rebuild that [__init__] runs for the concrete scenario. *)
Lemma initCameraMatrix_composition_witness :
  rigid_composition (intrinsic_matrix 16 10 4000 3000) (camera 16 10 4000 3000 20 80).
Proof.
  apply (initCameraMatrix_composition (posed 16 10 4000 3000 20 80) None None None
           (camera 16 10 4000 3000 20 80)
           (16 * 1e-3 / (10 * 1e-3) * 4000) 0 (4000 / 2) 0
           0 (16 * 1e-3 / (10 * 1e-3) * 4000) (3000 / 2) 0
           0 0 1 0).
  - unfold posed, intrinsic_state, setattr. by attrs.
  - apply rebuild_posed.
Defined.

(** Claim C9 on the concrete scenario with [tan_tilt = 1]: the tilt of 80
    degrees given to the constructor is overridden. *)
Lemma initCameraMatrix_tan_tilt_witness :
  camera_tan_tilt 16 10 4000 3000 20 80 1 !! "tilt"
  = Some (VNum ((PI / 2 - atan 1) * 180 / PI))
  ∧ camera_tan_tilt 16 10 4000 3000 20 80 1 !! "R_tilt"
    = Some (VArr (rot_tilt (PI / 2 - atan 1))).
Proof.
  apply (initCameraMatrix_tan_tilt
           (setattr "tan_tilt" (VNum 1) (posed 16 10 4000 3000 20 80))
           None None None (camera_tan_tilt 16 10 4000 3000 20 80 1) 1).
  - unfold setattr. by rewrite lookup_insert_eq.
  - lra.
  - apply rebuild_tan_tilt. lra.
Defined.

(** ** Projection and back-projection *)

Section Projection.

Variables c11 c12 c13 c14 c21 c22 c23 c24 c31 c32 c33 c34 : R.
Variable self : gmap string value.

Let C : matrix :=
  [[c11; c12; c13; c14]; [c21; c22; c23; c24]; [c31; c32; c33; c34]].

Hypothesis self_C : self !! "C" = Some (VArr C).

(** The homogeneous image of a point: row [i] of [C] times [(p, 1)]. *)
Let X (i : nat) (px py pz : R) : R :=
  dotp (nth i C []) [px; py; pz; 1].

Lemma transWorldToCam_point px py pz :
  transWorldToCam self (Arr1 [px; py; pz])
  = Ok [[X 0 px py pz / X 2 px py pz]; [X 1 px py pz / X 2 px py pz]].
Proof using self_C.
  unfold transWorldToCam, getattr. rewrite self_C. subst X C. np_cbn.
  reflexivity.
Qed.

(** The determinant of the matrix reduced for a fixed [Z]. *)
Let D (z : R) : R :=
  det3 c11 c12 (c13 * z + c14) c21 c22 (c23 * z + c24) c31 c32 (c33 * z + c34).

Lemma backproject_singular u v z :
  D z = 0 →
  _transCamToWorldFixedDimension self [[u]; [v]] z 2 = Raise LinAlgError.
Proof using self_C.
  intros HD. unfold _transCamToWorldFixedDimension, reduced_matrix, getattr.
  rewrite self_C.
  subst C. np_cbn. unfold solve. np_cbn. cbv zeta.
  by rewrite decide_True.
Qed.

Lemma backproject_image px py pz :
  X 2 px py pz ≠ 0 → D pz ≠ 0 →
  _transCamToWorldFixedDimension self
    [[X 0 px py pz / X 2 px py pz]; [X 1 px py pz / X 2 px py pz]] pz 2
  = Ok [[px]; [py]; [pz]].
Proof using self_C.
  intros HX HD. unfold _transCamToWorldFixedDimension, reduced_matrix, getattr.
  rewrite self_C.
  subst C. np_cbn. unfold solve. np_cbn. cbv zeta.
  rewrite decide_False by done.
  assert (HX' : c31 * px + (c32 * py + (c33 * pz + c34)) ≠ 0).
  { intros E. apply HX. subst X. cbn [nth]. unfold dotp. cbn [foldr zip_with].
    etrans; [|exact E]. ring. }
  clear HX. subst X D. unfold det3 in *. np_cbn.
  do 2 f_equal; [|f_equal]; f_equal; field; repeat split; done.
Qed.

Lemma backproject_nonsingular u v z :
  D z ≠ 0 →
  ∃ a b, _transCamToWorldFixedDimension self [[u]; [v]] z 2 = Ok [[a]; [b]; [z]].
Proof using self_C.
  intros HD. unfold _transCamToWorldFixedDimension, reduced_matrix, getattr.
  rewrite self_C. subst C. np_cbn. unfold solve. np_cbn. cbv zeta.
  rewrite decide_False by done. np_cbn. by eexists _, _.
Qed.

End Projection.

(** Claim C1, as amended.  For a camera whose camera matrix is a 3x4 matrix
    and a world point [p = (px, py, pz)] of nonzero depth, if the reduced
    matrix of the back-projection with [Z] fixed to [pz] is not singular,
    then projecting [p] to the image and back-projecting the image point
    with [Z = pz] gives [p] again. *)
Theorem world_cam_world_roundtrip self
    c11 c12 c13 c14 c21 c22 c23 c24 c31 c32 c33 c34 px py pz d P :
  self !! "C" = Some (VArr [[c11; c12; c13; c14]; [c21; c22; c23; c24];
                            [c31; c32; c33; c34]]) →
  depth self [px; py; pz] = Ok d → d ≠ 0 →
  reduced_matrix self pz 2 = Ok P → det P ≠ 0 →
  ∃ img,
    transWorldToCam self (Arr1 [px; py; pz]) = Ok img
    ∧ transCamToWorld self (Arr2 img) None None (Some (Scalar pz))
      = Ok [[px]; [py]; [pz]].
Proof.
  intros HC Hd Hd0 HP HD.
  unfold depth, getattr in Hd. rewrite HC in Hd. revert Hd. np_cbn.
  intros [= <-].
  unfold reduced_matrix, getattr in HP. rewrite HC in HP. revert HP. np_cbn.
  intros [= <-]. cbn [det] in HD.
  eexists. split; [by apply transWorldToCam_point|].
  cbn [transCamToWorld back_project count_none Nat.add Nat.eqb negb mbind result_bind
       as_columns].
  apply backproject_image; done.
Qed.

Lemma camera_reduced_det fl s w h oh tilt z P :
  reduced_matrix (camera fl s w h oh tilt) z 2 = Ok P →
  det P = (fl * 1e-3 / (s * 1e-3) * w) ^ 2 * (z - oh).
Proof.
  unfold reduced_matrix, getattr. rewrite camera_C. np_cbn. intros [= <-].
  cbn [det]. unfold det3.
  set (a := tilt * PI / 180). set (F := fl * 1e-3 / (s * 1e-3) * w).
  transitivity (F ^ 2 * (z - oh) * ((sin a)² + (cos a)²)).
  - unfold Rsqr. ring.
  - rewrite sin2_cos2. ring.
Qed.

Lemma camera_depth fl s w h oh tilt px py pz :
  depth (camera fl s w h oh tilt) [px; py; pz]
  = Ok (- sin (tilt * PI / 180) * py + cos (tilt * PI / 180) * (pz - oh)).
Proof.
  unfold depth, getattr. rewrite camera_C. np_cbn. f_equal. ring.
Qed.

Lemma sin_80_pos : 0 < sin (80 * PI / 180).
Proof. pose proof PI_RGT_0. apply sin_gt_0; lra. Qed.

Lemma cos_80_pos : 0 < cos (80 * PI / 180).
Proof. pose proof PI_RGT_0. apply cos_gt_0; lra. Qed.

(** The round trip of claim C1 on the camera of the concrete scenario of the
    specification (16 mm lens, 10 mm sensor, 4000 x 3000 pixels, height 20,
    tilt 80) and the point (0, 50, 0). *)
Lemma world_cam_world_roundtrip_witness :
  ∃ cam img,
    __init__ (Some 16) (Some (SensorWidth 10)) (Some (4000, 3000)) (Some 20) (Some 80)
    = Ok cam
    ∧ transWorldToCam cam (Arr1 [0; 50; 0]) = Ok img
    ∧ transCamToWorld cam (Arr2 img) None None (Some (Scalar 0))
      = Ok [[0]; [50]; [0]].
Proof.
  exists (camera 16 10 4000 3000 20 80).
  assert (HP : ∃ P, reduced_matrix (camera 16 10 4000 3000 20 80) 0 2 = Ok P).
  { unfold reduced_matrix, getattr. rewrite camera_C. np_cbn. by eexists. }
  destruct HP as [P HP].
  destruct (world_cam_world_roundtrip (camera 16 10 4000 3000 20 80)
              _ _ _ _ _ _ _ _ _ _ _ _ 0 50 0 _ P
              (camera_C 16 10 4000 3000 20 80)
              (camera_depth 16 10 4000 3000 20 80 0 50 0)) as (img & H1 & H2).
  - pose proof sin_80_pos. pose proof cos_80_pos. lra.
  - exact HP.
  - rewrite (camera_reduced_det _ _ _ _ _ _ _ _ HP). lra.
  - exists img. split; [apply init_camera; lra|]. done.
Defined.

(** Claim C1 as stated fails: the point (0, 50, 20) lies at the height of
    the same camera, its depth is not zero and it has an image, yet the plane
    [Z = 20] contains the camera centre, the reduced matrix is singular and
    the back-projection raises [LinAlgError]. *)
Lemma roundtrip_fails_at_camera_height :
  ∃ cam d img,
    __init__ (Some 16) (Some (SensorWidth 10)) (Some (4000, 3000)) (Some 20) (Some 80)
    = Ok cam
    ∧ depth cam [0; 50; 20] = Ok d ∧ d ≠ 0
    ∧ transWorldToCam cam (Arr1 [0; 50; 20]) = Ok img
    ∧ transCamToWorld cam (Arr2 img) None None (Some (Scalar 20))
      = Raise LinAlgError.
Proof.
  exists (camera 16 10 4000 3000 20 80). eexists. eexists.
  split; [apply init_camera; lra|].
  split; [apply camera_depth|].
  split; [pose proof sin_80_pos; lra|].
  split; [apply transWorldToCam_point, camera_C|].
  cbn [transCamToWorld back_project count_none Nat.add Nat.eqb negb mbind result_bind
       as_columns].
  eapply backproject_singular; [apply camera_C|].
  unfold det3. ring.
Qed.

(** ** The argument check of [transCamToWorld] *)

Lemma bind_Raise_inv {A B} (m : result A) (k : A → result B) e :
  (m ≫= k) = Raise e → m = Raise e ∨ ∃ a, m = Ok a ∧ k a = Raise e.
Proof. destruct m as [a|e']; cbn; [right; by exists a | left; congruence]. Qed.

Lemma mapM_Raise_inv {A B} (k : A → result B) l e :
  mapM k l = Raise e → ∃ a, a ∈ l ∧ k a = Raise e.
Proof.
  induction l as [|a l IH]; [done|]. cbn [mapM]. intros H.
  apply bind_Raise_inv in H as [H|(b & _ & H)].
  - exists a. split; [left|done].
  - apply bind_Raise_inv in H as [H|(bs & _ & H)]; [|done].
    destruct (IH H) as (a' & ? & ?). exists a'. split; [by right|done].
Qed.

(** The errors of the back-projection proper are not the error of the
    argument check. *)
Lemma backproject_error self x fixed dimension e :
  _transCamToWorldFixedDimension self x fixed dimension = Raise e →
  e ≠ ValueError exactly_one_msg.
Proof.
  unfold _transCamToWorldFixedDimension. intros H.
  apply bind_Raise_inv in H as [H|(x' & _ & H)].
  { unfold vstack in H. by destruct (_ =? _)%nat; simplify_eq. }
  apply bind_Raise_inv in H as [H|(P & _ & H)].
  { unfold reduced_matrix in H.
    apply bind_Raise_inv in H as [H|(C & _ & H)].
    { unfold getattr in H. by destruct (_ !! _); simplify_eq. }
    apply bind_Raise_inv in H as [H|(P & _ & H)].
    { by destruct C; simplify_eq. }
    apply mapM_Raise_inv in H as (r & _ & H). unfold reduce_row in H.
    by destruct (r !! dimension), (r !! 3%nat); simplify_eq. }
  apply bind_Raise_inv in H as [H|(X & _ & H)].
  { unfold solve in H.
    repeat (match type of H with
            | match ?l with _ => _ end = _ => destruct l; try by simplify_eq
            end). }
  by destruct (X !! dimension); simplify_eq.
Qed.

Lemma back_project_error self x fixed dimension e :
  back_project self x fixed dimension = Raise e →
  e ≠ ValueError exactly_one_msg.
Proof.
  unfold back_project. destruct fixed as [v|vs]; [apply backproject_error|].
  intros H. apply bind_Raise_inv in H as [H|(cols & _ & H)];
    [|by destruct cols; simplify_eq].
  apply mapM_Raise_inv in H as (i & _ & H).
  destruct (vs !! i); [|by simplify_eq].
  apply bind_Raise_inv in H as [H|(? & _ & H)]; [|done].
  by eapply backproject_error.
Qed.

(** Claim C2.  A call of [transCamToWorld] raises the [ValueError] of its
    argument check if and only if the number of arguments supplied among
    [X], [Y], [Z] is not one; with exactly one supplied, the call is the
    back-projection with that argument and its axis. *)
Theorem transCamToWorld_exactly_one self x X Y Z :
  (transCamToWorld self x X Y Z = Raise (ValueError exactly_one_msg)
   ↔ supplied X Y Z ≠ 1%nat)
  ∧ (supplied X Y Z = 1%nat →
     ∃ fixed dimension,
       [X; Y; Z] !! dimension = Some (Some fixed)
       ∧ transCamToWorld self x X Y Z = back_project self x fixed dimension).
Proof.
  unfold transCamToWorld, supplied. split; [split|].
  - destruct X as [fx|], Y as [fy|], Z as [fz|]; cbn [Nat.add];
      try (intros _; lia);
      cbn [count_none Nat.add Nat.eqb negb mbind result_bind]; intros H;
      by apply back_project_error in H.
  - destruct X, Y, Z; cbn; try done; lia.
  - destruct X as [fx|], Y as [fy|], Z as [fz|]; cbn [Nat.add]; try lia; intros _;
      cbn [count_none Nat.add Nat.eqb negb mbind result_bind].
    + by exists fx, 0%nat.
    + by exists fy, 1%nat.
    + by exists fz, 2%nat.
Qed.

(** ** The fixed-point iteration of [transCamToEarth] *)

Section Iteration.

Variable self : gmap string value.
Variables (point : list R) (r max_distance : R).







(** With a round to run, the values of [new_point] and [alpha] left by the
    previous point are overwritten before they are read. *)
Lemma iterate_carried n z lp np a np' a' :
  (1 ≤ n)%nat →
  iterate self point r max_distance n z lp np a
  = iterate self point r max_distance n z lp np' a'.
Proof. intros Hn. destruct n; [lia|reflexivity]. Qed.

End Iteration.


Lemma camera_det3 fl s w h oh tilt z :
  let F := fl * 1e-3 / (s * 1e-3) * w in
  let a := tilt * PI / 180 in
  det3 F (- (w / 2) * sin a) (w / 2 * cos a * z + - (w / 2) * oh * cos a)
       0 (F * cos a - h / 2 * sin a)
       ((F * sin a + h / 2 * cos a) * z + (- F * oh * sin a - h / 2 * oh * cos a))
       0 (- sin a) (cos a * z + - oh * cos a)
  = F ^ 2 * (z - oh).
Proof.
  intros F a. unfold det3.
  transitivity (F ^ 2 * (z - oh) * ((sin a)² + (cos a)²)).
  - unfold Rsqr. ring.
  - rewrite sin2_cos2. ring.
Qed.




(** ** The closed-form earth transforms *)

Lemma np_copy_fresh x heap v :
  heap !! x = Some v →
  np_copy x heap = Ok (fresh (dom heap), <[fresh (dom heap) := v]> heap)
  ∧ heap !! fresh (dom heap) = None.
Proof.
  intros Hx. unfold np_copy. rewrite Hx. split; [done|].
  apply not_elem_of_dom, is_fresh.
Qed.

Lemma transWorldToEarth_run self heap x px py pz Re :
  self !! "R_earth" = Some (VNum Re) →
  heap !! x = Some [px; py; pz] →
  let r_eff := norm [px - 0; py - 0; pz - - Re] in
  transWorldToEarth x (self, heap)
  = Ok (fresh (dom heap),
        (self, <[fresh (dom heap) := [px; acos (py / r_eff) * r_eff; r_eff]]> heap)).
Proof.
  intros HR Hx r_eff. unfold transWorldToEarth.
  destruct (np_copy_fresh _ _ _ Hx) as [-> _]. cbn [mbind result_bind].
  unfold getattr. rewrite HR. cbn [mbind result_bind num].
  rewrite lookup_insert_eq. cbn [mbind result_bind broadcast_sub length Nat.eqb zip_with].
  unfold getitem, setitem. rewrite lookup_insert_eq. cbn [lookup list_lookup mbind result_bind].
  rewrite decide_True by (cbn; lia). cbn [mbind result_bind].
  rewrite lookup_insert_eq. rewrite decide_True by (cbn; lia).
  rewrite !insert_insert_eq. reflexivity.
Qed.

Lemma transEarthToWorld_run self heap x e0 e1 e2 Re :
  self !! "R_earth" = Some (VNum Re) →
  heap !! x = Some [e0; e1; e2] →
  let radius := e2 + Re in
  let alpha := e1 / radius in
  transEarthToWorld x (self, heap)
  = Ok (fresh (dom heap),
        (self, <[fresh (dom heap) :=
                   [e0; tan alpha * radius; radius - radius * cos alpha]]> heap)).
Proof.
  intros HR Hx radius alpha. unfold transEarthToWorld.
  destruct (np_copy_fresh _ _ _ Hx) as [-> _]. cbn [mbind result_bind].
  unfold getitem, setitem, getattr. rewrite lookup_insert_eq, HR.
  cbn [lookup list_lookup mbind result_bind num].
  rewrite decide_True by (cbn; lia). cbn [mbind result_bind].
  rewrite lookup_insert_eq. rewrite decide_True by (cbn; lia).
  rewrite !insert_insert_eq. reflexivity.
Qed.







(** The round trip of a point through both transforms. *)
Lemma earth_world_roundtrip_run self heap x px py pz Re :
  self !! "R_earth" = Some (VNum Re) →
  heap !! x = Some [px; py; pz] →
  let r_eff := norm [px - 0; py - 0; pz - - Re] in
  let radius := r_eff + Re in
  let alpha := acos (py / r_eff) * r_eff / radius in
  earth_world_roundtrip x (self, heap)
  = Ok [px; tan alpha * radius; radius - radius * cos alpha].
Proof.
  intros HR Hx r_eff radius alpha. unfold earth_world_roundtrip.
  rewrite (transWorldToEarth_run _ _ _ _ _ _ _ HR Hx). cbn [mbind result_bind].
  erewrite transEarthToWorld_run; [|exact HR|apply lookup_insert_eq].
  cbn [mbind result_bind snd]. by rewrite lookup_insert_eq.
Qed.

Lemma norm_origin Re : 0 < Re → norm [0 - 0; 0 - 0; 0 - - Re] = Re.
Proof.
  intros HRe. unfold norm, dotp. cbn [zip_with foldr].
  replace (_ + _) with (Re * Re) by ring. apply sqrt_square. lra.
Qed.

(** Claim C4 fails on the code.  The origin of the world frame lies at the
    distance [R_earth] from the earth centre, a positive radius, and the
    round trip [transEarthToWorld(transWorldToEarth(p))] moves it to
    [y = 2 * R_earth = 12742000]. *)
Theorem earth_world_roundtrip_origin :
  norm [0 - 0; 0 - 0; 0 - - (6371e3)] = 6371e3
  ∧ ∃ z, earth_world_roundtrip 0 (class_attributes, {[0%nat := [0; 0; 0]]})
         = Ok [0; 12742000; z].
Proof.
  assert (Hn := norm_origin 6371e3 ltac:(lra)). split; [exact Hn|].
  eexists. erewrite earth_world_roundtrip_run;
    [|by class_lookup|apply lookup_singleton_eq].
  cbv zeta. rewrite Hn.
  replace (0 / 6371e3) with 0 by lra. rewrite acos_0.
  replace (PI / 2 * 6371e3 / (6371e3 + 6371e3)) with (PI / 4) by (field; lra).
  rewrite tan_PI4. do 2 f_equal. f_equal. lra.
Qed.

(** ** Distance and bearing *)

Lemma distanceBearing_run self x y z cx cy :
  self !! "pos_x" = Some (VNum cx) → self !! "pos_y" = Some (VNum cy) →
  distanceBearing self [x; y; z]
  = Ok (sqrt ((x - cx) ^ 2 + (y - cy) ^ 2), - atan ((x - cx) / (y - cy)) * 180 / PI).
Proof.
  intros Hx Hy. unfold distanceBearing, getattr. rewrite Hx, Hy. reflexivity.
Qed.

(** A point and its reflection through the camera foot point get the same
    distance and the same bearing. *)
Lemma distanceBearing_reflection self x y z z' cx cy :
  self !! "pos_x" = Some (VNum cx) → self !! "pos_y" = Some (VNum cy) →
  y - cy ≠ 0 →
  distanceBearing self [2 * cx - x; 2 * cy - y; z'] = distanceBearing self [x; y; z].
Proof.
  intros Hx Hy Hne. rewrite !(distanceBearing_run _ _ _ _ _ _ Hx Hy).
  replace ((2 * cx - x - cx) / (2 * cy - y - cy)) with ((x - cx) / (y - cy))
    by (field; split; [lra|done]).
  do 3 f_equal. ring.
Qed.

(** Claim C6 fails on the code.  The point (1, 1, 0) and its reflection
    (-1, -1, 0) through the foot point of a camera at the origin get the same
    distance and the same bearing of -45 degrees, not bearings 180 degrees
    apart. *)
Theorem distanceBearing_reflected_same_bearing :
  distanceBearing class_attributes [1; 1; 0] = Ok (sqrt 2, -45)
  ∧ distanceBearing class_attributes [-1; -1; 0] = Ok (sqrt 2, -45).
Proof.
  assert (Hx : class_attributes !! "pos_x" = Some (VNum 0)) by (by class_lookup).
  assert (Hy : class_attributes !! "pos_y" = Some (VNum 0)) by (by class_lookup).
  assert (H1 : distanceBearing class_attributes [1; 1; 0] = Ok (sqrt 2, -45)).
  { rewrite (distanceBearing_run _ _ _ _ _ _ Hx Hy). do 2 f_equal.
    - f_equal. lra.
    - replace ((1 - 0) / (1 - 0)) with 1 by lra. rewrite atan_1.
      field. apply PI_neq0. }
  split; [exact H1|]. rewrite <- H1.
  replace [-1; -1; 0] with [2 * 0 - 1; 2 * 0 - 1; 0] by (repeat f_equal; lra).
  apply distanceBearing_reflection; [done..|lra].
Qed.

(** ** The free parameters of a fit *)

Lemma instance_class_attributes : instance class_attributes.
Proof.
  intros k Hk. apply list_elem_of_fmap in Hk as ([k' v] & -> & Hk).
  cbn [fst]. rewrite (class_attributes_lookup _ _ Hk). by eexists.
Qed.

Lemma instance_setattr k v self : instance self → instance (setattr k v self).
Proof.
  intros H k' Hk'. unfold setattr. destruct (decide (k = k')) as [->|].
  - rewrite lookup_insert_eq. by eexists.
  - rewrite lookup_insert_ne by done. by apply H.
Qed.

Lemma instance_getattr self k :
  instance self → k ∈ class_attribute_list.*1 → ∃ v, self !! k = Some v.
Proof. intros H Hk. destruct (H k Hk) as [v Hv]. by exists v. Qed.

Ltac class_member :=
  apply (bool_decide_unpack _); vm_compute; reflexivity.

Lemma filter_ext_in {A} (P Q : A → Prop) `{!∀ x, Decision (P x), !∀ x, Decision (Q x)}
    (l : list A) :
  (∀ x, x ∈ l → P x ↔ Q x) → filter P l = filter Q l.
Proof.
  induction l as [|a l IH]; [done|]. intros HPQ.
  rewrite !filter_cons, IH by (intros; apply HPQ; by right).
  apply decide_ext, HPQ. left.
Qed.

Lemma filter_all {A} (P : A → Prop) `{!∀ x, Decision (P x)} (l : list A) :
  (∀ x, x ∈ l → P x) → filter P l = l.
Proof.
  induction l as [|a l IH]; [done|]. intros HP.
  rewrite filter_cons_True by (apply HP; left).
  f_equal. apply IH. intros; apply HP; by right.
Qed.

Lemma list_remove_filter x l :
  NoDup l → x ∈ l → list_remove x l = Ok (filter (λ y, y ≠ x) l).
Proof.
  induction l as [|a l IH]; intros Hnd Hin; [by apply elem_of_nil in Hin|].
  apply NoDup_cons in Hnd as [Ha Hnd]. cbn [list_remove].
  destruct (decide (x = a)) as [->|Hne].
  - rewrite filter_cons_False by (by intros ?).
    rewrite filter_all; [done|]. intros y Hy ->. done.
  - apply elem_of_cons in Hin as [?|Hin]; [done|].
    rewrite (IH Hnd Hin), filter_cons_True by (by intros ->). done.
Qed.

Lemma remove_if_known_filter self k l v :
  self !! k = Some v → NoDup l → k ∈ l →
  remove_if_known self k l
  = Ok (filter (λ y, ¬ (y = k ∧ fixed_parameter self k = true)) l).
Proof.
  intros Hv Hnd Hin. unfold remove_if_known, getattr, fixed_parameter.
  rewrite Hv. cbn [mbind result_bind].
  destruct v; cbn [is_none].
  - rewrite filter_all; [done|]. by intros y _ [_ ?].
  - rewrite list_remove_filter by done. f_equal.
    apply list_filter_iff. intros y. intuition.
  - rewrite list_remove_filter by done. f_equal.
    apply list_filter_iff. intros y. intuition.
Qed.

Lemma mapM_total {A B} (k : A → result B) (l : list A) :
  (∀ a, a ∈ l → ∃ b, k a = Ok b) →
  ∃ bs, mapM k l = Ok bs ∧ length bs = length l.
Proof.
  induction l as [|a l IH]; intros H; [by exists []|].
  destruct (H a) as [b Hb]; [left|].
  destruct IH as (bs & Hbs & Hlen); [intros; apply H; by right|].
  exists (b :: bs). cbn [mapM]. rewrite Hb, Hbs. cbn. by rewrite Hlen.
Qed.

Ltac kept :=
  apply list_elem_of_filter; split;
  [ repeat split; by intros [? _] | class_member ].

(** Claim C3, as amended.  The free parameters of a fit are the six pose
    parameters without those of roll, heading, height, pos_x and pos_y that
    are fixed; tilt stays in the list whether it is fixed or not.  The start
    vector handed to the optimizer has one entry for each of them. *)
Theorem fit_parameters_free self :
  instance self →
  let free := filter (λ name, name = "tilt" ∨ fixed_parameter self name = false)
                pose_parameters in
  ∃ x0,
    _fit self = Ok (free, x0, setattr "horizon_error" (VNum 0) self)
    ∧ length x0 = length free.
Proof.
  intros Hi free.
  destruct (instance_getattr self "roll" Hi) as [vr Hr]; [class_member|].
  destruct (instance_getattr self "heading" Hi) as [vh Hh]; [class_member|].
  destruct (instance_getattr self "height" Hi) as [vz Hz]; [class_member|].
  destruct (instance_getattr self "pos_x" Hi) as [vx Hx]; [class_member|].
  destruct (instance_getattr self "pos_y" Hi) as [vy Hy]; [class_member|].
  destruct (instance_getattr self "estimated_height" Hi) as [e1 He1]; [class_member|].
  destruct (instance_getattr self "estimated_tilt" Hi) as [e2 He2]; [class_member|].
  destruct (instance_getattr self "estimated_roll" Hi) as [e3 He3]; [class_member|].
  destruct (instance_getattr self "estimated_heading" Hi) as [e4 He4]; [class_member|].
  assert (Hnd : NoDup pose_parameters) by class_member.
  assert (Hfp : free_parameters self pose_parameters = Ok free).
  { unfold free_parameters.
    rewrite (remove_if_known_filter _ _ _ _ Hr Hnd) by class_member.
    cbn [mbind result_bind].
    rewrite (remove_if_known_filter _ _ _ _ Hh);
      [|by apply NoDup_filter|kept].
    cbn [mbind result_bind]. rewrite list_filter_filter.
    rewrite (remove_if_known_filter _ _ _ _ Hz);
      [|by apply NoDup_filter|kept].
    cbn [mbind result_bind]. rewrite list_filter_filter.
    rewrite (remove_if_known_filter _ _ _ _ Hx);
      [|by apply NoDup_filter|kept].
    cbn [mbind result_bind]. rewrite list_filter_filter.
    rewrite (remove_if_known_filter _ _ _ _ Hy);
      [|by apply NoDup_filter|kept].
    rewrite list_filter_filter. f_equal.
    apply filter_ext_in. intros x Hx'. unfold pose_parameters in Hx'.
    repeat (apply elem_of_cons in Hx' as [->|Hx']);
      [..|by apply elem_of_nil in Hx'];
      repeat match goal with
             | |- context [fixed_parameter self ?k] =>
                 destruct (fixed_parameter self k)
             end;
      intuition congruence. }
  destruct (mapM_total
              (λ key, match (list_to_map
                               [("height", e1); ("tilt", e2); ("roll", e3);
                                ("heading", e4); ("pos_x", VNum 0);
                                ("pos_y", VNum 0)] : gmap string value) !! key with
                      | Some v => Ok v
                      | None => Raise (KeyError key)
                      end) free) as (x0 & Hx0 & Hlen).
  { intros key [_ Hkey]%list_elem_of_filter. unfold pose_parameters in Hkey.
    repeat (apply elem_of_cons in Hkey as [->|Hkey]);
      [..|by apply elem_of_nil in Hkey];
      (erewrite elem_of_list_to_map_1;
       [by eexists
       |class_member
       |repeat first [apply list_elem_of_here | apply list_elem_of_further]]). }
  exists x0. split; [|exact Hlen].
  unfold _fit, estimates, getattr.
  rewrite He1, He2, He3, He4. cbn [mbind result_bind fmap list_fmap fst].
  fold pose_parameters. rewrite Hfp. cbn [mbind result_bind].
  unfold start_vector. rewrite Hx0. reflexivity.
Qed.

Lemma instance_camera fl s w h oh tilt : instance (camera fl s w h oh tilt).
Proof.
  unfold camera, rebuilt, posed, intrinsic_state. cbn zeta.
  repeat match goal with
         | |- instance (setattr _ _ _) => apply instance_setattr
         end.
  apply instance_class_attributes.
Qed.

(** Claim C3 as amended, on the camera of the concrete scenario. *)
Lemma fit_parameters_free_witness :
  let cam := camera 16 10 4000 3000 20 80 in
  let free := filter (λ name, name = "tilt" ∨ fixed_parameter cam name = false)
                pose_parameters in
  instance cam
  ∧ ∃ x0,
      _fit cam = Ok (free, x0, setattr "horizon_error" (VNum 0) cam)
      ∧ length x0 = length free.
Proof.
  split; [apply instance_camera|].
  apply (fit_parameters_free (camera 16 10 4000 3000 20 80)), instance_camera.
Defined.

(** [l.remove(x)] on explicit lists of names. *)
Ltac eval_remove :=
  match goal with
  | |- context [list_remove ?x ?l] =>
      let v := eval vm_compute in (list_remove x l) in
      change (list_remove x l) with v
  end.

(** Claim C3 as stated fails: the camera of the concrete scenario has its
    tilt fixed to 80, and ["tilt"] is still a free parameter of the fit. *)
Lemma fit_keeps_fixed_tilt :
  ∃ cam,
    __init__ (Some 16) (Some (SensorWidth 10)) (Some (4000, 3000)) (Some 20) (Some 80)
    = Ok cam
    ∧ cam !! "tilt" = Some (VNum 80)
    ∧ _fit cam
      = Ok (["tilt"; "roll"], [VNum 85; VNum 0],
            setattr "horizon_error" (VNum 0) cam).
Proof.
  exists (camera 16 10 4000 3000 20 80).
  split; [apply init_camera; lra|]. split; [apply camera_tilt|].
  unfold _fit, estimates, free_parameters, remove_if_known.
  unfold camera, rebuilt, posed, intrinsic_state.
  repeat first [ run_step | progress cbn [fmap list_fmap fst] | eval_remove ].
  unfold start_vector. cbn [mapM].
  rewrite (elem_of_list_to_map_1 _ "tilt" (VNum 85));
    [|class_member
     |repeat first [apply list_elem_of_here | apply list_elem_of_further]].
  rewrite (elem_of_list_to_map_1 _ "roll" (VNum 0));
    [|class_member
     |repeat first [apply list_elem_of_here | apply list_elem_of_further]].
  reflexivity.
Qed.

(** ** Arrays of points, column by column

    The transforms take arrays of the shape [2xN] and [3xN].  An array whose
    rows are the images of one list of points under several functions is
    transposed, multiplied and divided point by point. *)

Lemma transpose_fmaps {A} (fs : list (A → R)) (l : list A) :
  fs ≠ [] →
  transpose (map (λ f, map f l) fs) = map (λ x, map (λ f, f x) fs) l.
Proof.
  intros Hfs. unfold transpose.
  assert (ncols (map (λ f, map f l) fs) = length l) as ->.
  { destruct fs; [done|]. cbn. by rewrite length_map. }
  apply list_eq. intros j. rewrite !list_lookup_fmap.
  destruct (l !! j) as [x|] eqn:Ej.
  - rewrite lookup_seq_lt by (by eapply lookup_lt_Some). cbn.
    f_equal. unfold col. rewrite map_map. apply map_ext. intros f.
    apply nth_lookup_Some with (d := 0). by rewrite list_lookup_fmap, Ej.
  - rewrite lookup_seq_ge by (by apply lookup_ge_None). done.
Qed.

(** The transpose of a list of columns. *)
Lemma transpose_columns {A} (fs : list (A → R)) (l : list A) :
  l ≠ [] →
  transpose (map (λ x, map (λ f, f x) fs) l) = map (λ f, map f l) fs.
Proof.
  intros Hl. unfold transpose.
  assert (ncols (map (λ x, map (λ f, f x) fs) l) = length fs) as ->.
  { destruct l; [done|]. cbn. by rewrite length_map. }
  apply list_eq. intros j. rewrite !list_lookup_fmap.
  destruct (fs !! j) as [f|] eqn:Ej.
  - rewrite lookup_seq_lt by (by eapply lookup_lt_Some). cbn.
    f_equal. unfold col. rewrite map_map. apply map_ext. intros x.
    apply nth_lookup_Some with (d := 0). by rewrite list_lookup_fmap, Ej.
  - rewrite lookup_seq_ge by (by apply lookup_ge_None). done.
Qed.

Lemma mmul_fmaps {A} (a : matrix) (fs : list (A → R)) (l : list A) :
  fs ≠ [] →
  mmul a (map (λ f, map f l) fs)
  = map (λ r, map (λ x, dotp r (map (λ f, f x) fs)) l) a.
Proof.
  intros Hfs. unfold mmul. rewrite transpose_fmaps by done.
  apply map_ext. intros r. by rewrite map_map.
Qed.

Lemma ones_fmap {A} (l : list A) : ones (length l) = map (λ _, 1) l.
Proof. unfold ones. symmetry. by apply const_fmap. Qed.

Lemma zip_with_fmaps {A} (f g : A → R) (op : R → R → R) (l : list A) :
  zip_with op (map f l) (map g l) = map (λ x, op (f x) (g x)) l.
Proof. induction l as [|x l IH]; [done|]. cbn. by rewrite IH. Qed.

Lemma Forall_map_In {A B} (P : B → Prop) (f : A → B) (l : list A) :
  Forall P (map f l) → ∀ x, In x l → P (f x).
Proof.
  induction l as [|a l IH]; cbn; [done|].
  intros [Ha Hl]%Forall_cons x [<-|Hx]; [done|by apply IH].
Qed.

Lemma vstack_ones x : vstack x (ones (ncols x)) = Ok (x ++ [ones (ncols x)]).
Proof. apply vstack_ok. unfold ones. by rewrite length_replicate. Qed.

Lemma points_rows {A} (f g : A → R) (l : list A) :
  [map f l; map g l] ++ [ones (ncols [map f l; map g l])]
  = map (λ k, map k l) [f; g; λ _, 1].
Proof. cbn [ncols app map]. by rewrite length_map, ones_fmap. Qed.

Lemma ncols_vstack x r : length r = ncols x → ncols (x ++ [r]) = ncols x.
Proof. destruct x; cbn; done. Qed.

Lemma length_transpose m : length (transpose m) = ncols m.
Proof. unfold transpose. by rewrite length_map, length_seq. Qed.

(** [solve] on an array of points. *)
Lemma solve_points {A} a b c d e f g h i (f0 f1 f2 : A → R) (l : list A) :
  let D := det3 a b c d e f g h i in
  D ≠ 0 →
  solve [[a; b; c]; [d; e; f]; [g; h; i]] (map (λ k, map k l) [f0; f1; f2])
  = Ok (map (λ r, map (λ x, dotp r [f0 x; f1 x; f2 x]) l)
          [[(e * i - f * h) / D; (c * h - b * i) / D; (b * f - c * e) / D];
           [(f * g - d * i) / D; (a * i - c * g) / D; (c * d - a * f) / D];
           [(d * h - e * g) / D; (b * g - a * h) / D; (a * e - b * d) / D]]).
Proof.
  intros D HD. unfold solve. fold D. rewrite decide_False by done.
  rewrite mmul_fmaps by done. reflexivity.
Qed.

Lemma solve_singular a b c d e f g h i x :
  det3 a b c d e f g h i = 0 →
  ∀ S, solve [[a; b; c]; [d; e; f]; [g; h; i]] x ≠ Ok S.
Proof.
  intros HD S. unfold solve. destruct (negb _); [done|].
  by rewrite decide_True.
Qed.

Lemma solve_shape P x X :
  solve P x = Ok X →
  length X = 3%nat ∧ Forall (λ r, length r = ncols x) X.
Proof.
  unfold solve.
  destruct P as [|[|a [|b [|c [|]]]] [|[|d [|e [|f [|]]]] [|[|g [|h [|i [|]]]] [|]]]];
    try discriminate.
  destruct (negb _); [discriminate|]. cbv zeta.
  destruct (decide _); [discriminate|]. intros [= <-].
  split; [done|]. unfold mmul.
  repeat constructor; by rewrite length_map, length_transpose.
Qed.

(** [solve] answers for every number of columns in the same way: with the
    same error, or with the same inverse applied column by column. *)
Lemma solve_columnwise {A} (P : matrix) (f0 f1 f2 : A → R) :
  (∃ e, ∀ l, solve P (map (λ k, map k l) [f0; f1; f2]) = Raise e)
  ∨ (∃ Pinv, ∀ l, solve P (map (λ k, map k l) [f0; f1; f2])
                  = Ok (map (λ r, map (λ x, dotp r [f0 x; f1 x; f2 x]) l) Pinv)).
Proof.
  assert (∀ r : list R, r = [] ∨ (∃ a, r = [a]) ∨ (∃ a b, r = [a; b])
            ∨ (∃ a b c, r = [a; b; c]) ∨ ∃ a b c d r', r = a :: b :: c :: d :: r')
    as Hrow.
  { intros [|a [|b [|c [|d r']]]].
    - by left.
    - right; left. by eexists.
    - do 2 right; left. by eexists _, _.
    - do 3 right; left. by eexists _, _, _.
    - do 4 right. by eexists _, _, _, _, _. }
  assert ((∃ a b c d e f g h i, P = [[a; b; c]; [d; e; f]; [g; h; i]])
          ∨ ∀ x, solve P x = Raise LinAlgError) as [(a&b&c&d&e&f&g&h&i&->)|HP].
  { destruct P as [|r1 [|r2 [|r3 [|r4 P]]]];
      try (right; intros ?;
           try (destruct (Hrow r1) as [->|[(?&->)|[(?&?&->)|[(?&?&?&->)|(?&?&?&?&?&->)]]]]);
           try (destruct (Hrow r2) as [->|[(?&->)|[(?&?&->)|[(?&?&?&->)|(?&?&?&?&?&->)]]]]);
           try (destruct (Hrow r3) as [->|[(?&->)|[(?&?&->)|[(?&?&?&->)|(?&?&?&?&?&->)]]]]);
           reflexivity).
    destruct (Hrow r1) as [->|[(?&->)|[(?&?&->)|[(?&?&?&->)|(?&?&?&?&?&->)]]]];
    destruct (Hrow r2) as [->|[(?&->)|[(?&?&->)|[(?&?&?&->)|(?&?&?&?&?&->)]]]];
    destruct (Hrow r3) as [->|[(?&->)|[(?&?&->)|[(?&?&?&->)|(?&?&?&?&?&->)]]]];
    try (right; intros ?; reflexivity).
    left. by eexists _, _, _, _, _, _, _, _, _. }
  2: { left. exists LinAlgError. intros l. apply HP. }
  destruct (decide (det3 a b c d e f g h i = 0)) as [HD|HD].
  - left. exists LinAlgError. intros l. unfold solve.
    cbn [nrows length map Nat.eqb negb]. cbv zeta. by rewrite decide_True.
  - right. eexists. intros l. by rewrite solve_points.
Qed.

(** The back-projection of an array of points, step by step. *)
Lemma backproject_points {A} self (f g : A → R) (l : list A) v dim :
  _transCamToWorldFixedDimension self [map f l; map g l] v dim
  = P ← reduced_matrix self v dim;
    X ← solve P (map (λ k, map k l) [f; g; λ _, 1]);
    match X !! dim with
    | Some s => Ok (<[dim := map (λ _, v) s]> (map (λ r, zip_with Rdiv r s) X))
    | None => Raise IndexError
    end.
Proof.
  unfold _transCamToWorldFixedDimension.
  by rewrite vstack_ones, points_rows.
Qed.

Section Points.

Variables c11 c12 c13 c14 c21 c22 c23 c24 c31 c32 c33 c34 : R.
Variable self : gmap string value.

Hypothesis self_C :
  self !! "C" = Some (VArr [[c11; c12; c13; c14]; [c21; c22; c23; c24];
                            [c31; c32; c33; c34]]).

(** The projection of an array of points, column by column. *)
Lemma transWorldToCam_points {A} (g0 g1 g2 : A → R) (l : list A) :
  let X i x :=
    dotp (nth i [[c11; c12; c13; c14]; [c21; c22; c23; c24]; [c31; c32; c33; c34]] [])
         [g0 x; g1 x; g2 x; 1] in
  transWorldToCam self (Arr2 [map g0 l; map g1 l; map g2 l])
  = Ok [map (λ x, X 0%nat x / X 2%nat x) l; map (λ x, X 1%nat x / X 2%nat x) l].
Proof using self_C.
  intros X. unfold transWorldToCam, getattr. rewrite self_C.
  cbn [as_columns]. rewrite vstack_ones. cbn [mbind result_bind arr ncols app].
  rewrite length_map, ones_fmap.
  rewrite dot_ok by reflexivity. cbn [mbind result_bind].
  change [map g0 l; map g1 l; map g2 l; map (λ _, 1) l]
    with (map (λ k, map k l) [g0; g1; g2; λ _, 1]).
  rewrite mmul_fmaps by done.
  cbn [map lookup list_lookup take]. by rewrite !zip_with_fmaps.
Qed.

Lemma depth_point px py pz :
  depth self [px; py; pz] = Ok (dotp [c31; c32; c33; c34] [px; py; pz; 1]).
Proof using self_C. unfold depth, getattr. rewrite self_C. reflexivity. Qed.

(** From the image to the world and back to the image. *)
Lemma image_world_image_points (pts : list (R * R)) c dim S sc :
  (dim < 3)%nat →
  homogeneous_solution self [pts.*1; pts.*2] c dim = Ok S →
  S !! dim = Some sc → Forall (λ s, s ≠ 0) sc →
  ∃ p, _transCamToWorldFixedDimension self [pts.*1; pts.*2] c dim = Ok p
       ∧ p !! dim = Some (map (λ _, c) pts)
       ∧ transWorldToCam self (Arr2 p) = Ok [pts.*1; pts.*2].
Proof using self_C.
  intros Hdim.
  unfold homogeneous_solution, _transCamToWorldFixedDimension.
  rewrite vstack_ones, (points_rows fst snd). cbn [mbind result_bind].
  unfold reduced_matrix, getattr. rewrite self_C.
  destruct dim as [|[|[|]]]; [| | |lia];
  cbn [mbind result_bind mapM reduce_row lookup list_lookup insert list_insert take];
  match goal with
  | |- context [solve [[?a; ?b; ?c]; [?d; ?e; ?f]; [?g; ?h; ?i]] _] =>
      destruct (decide (det3 a b c d e f g h i = 0)) as [HD|HD];
      [ intros H; by apply solve_singular in H
      | rewrite solve_points by exact HD ]
  end;
  cbv zeta; cbn [map]; intros [= <-]; cbn [lookup list_lookup]; intros [= <-] Hs;
  cbn [mbind result_bind lookup list_lookup];
  (eexists; split; [reflexivity|]);
  cbn [map insert list_insert]; rewrite !zip_with_fmaps, map_map;
  (split; [reflexivity|]);
  rewrite transWorldToCam_points; cbv zeta; cbn [nth];
  pose proof (Forall_map_In _ _ _ Hs) as Hs'; clear Hs.
  all: do 2 f_equal; [|f_equal]; apply map_ext_in; intros [u v] Hin;
    specialize (Hs' _ Hin); revert Hs'; unfold dotp, det3 in *;
    cbn [zip_with foldr fst snd compose]; intros Hs.
  all: field; (split; [exact HD|]); intros E; apply Hs;
    match goal with
    | |- ?lhs = 0 =>
        match type of E with
        | ?N = 0 =>
            match type of HD with
            | ?D ≠ 0 => replace lhs with (N / D) by (field; exact HD)
            end
        end
    end;
    rewrite E; unfold Rdiv; apply Rmult_0_l.
Qed.

(** From the world to the image and back to the world. *)
Lemma world_image_world_points (q : list (R * R)) c dim P :
  (dim < 3)%nat →
  reduced_matrix self c dim = Ok P → det P ≠ 0 →
  Forall (λ p, ∃ d, depth self p = Ok d ∧ d ≠ 0) (transpose (plane_points dim c q)) →
  ∃ img, transWorldToCam self (Arr2 (plane_points dim c q)) = Ok img
         ∧ _transCamToWorldFixedDimension self img c dim = Ok (plane_points dim c q).
Proof using self_C.
  intros Hdim HP HD Hdepth.
  unfold reduced_matrix, getattr in HP. rewrite self_C in HP.
  destruct dim as [|[|[|]]]; [| | |lia];
    cbn [mbind result_bind mapM reduce_row lookup list_lookup insert list_insert take]
      in HP;
    injection HP as <-; cbn [det] in HD;
    unfold plane_points in *;
    change (q.*1) with (map fst q) in *; change (q.*2) with (map snd q) in *;
    match type of Hdepth with
    | Forall _ (transpose [map ?f q; map ?g q; map ?h q]) =>
        change [map f q; map g q; map h q] with (map (λ k, map k q) [f; g; h])
          in Hdepth
    end;
    rewrite transpose_fmaps in Hdepth by done;
    pose proof (Forall_map_In _ _ _ Hdepth) as Hd; clear Hdepth;
    rewrite transWorldToCam_points; cbv zeta; cbn [nth];
    (eexists; split; [reflexivity|]);
    unfold _transCamToWorldFixedDimension;
    rewrite vstack_ones, points_rows; cbn [mbind result_bind];
    unfold reduced_matrix, getattr; rewrite self_C;
    cbn [mbind result_bind mapM reduce_row lookup list_lookup insert list_insert take];
    rewrite solve_points by exact HD;
    cbv zeta; cbn [mbind result_bind map lookup list_lookup insert list_insert];
    rewrite !zip_with_fmaps, ?map_map.
  all: f_equal; repeat match goal with |- _ :: _ = _ :: _ => f_equal end;
    try reflexivity.
  all: apply map_ext_in; intros [u v] Hin;
    destruct (Hd _ Hin) as (d & E & Hne); cbn [map] in E;
    rewrite depth_point in E; injection E as <-; revert Hne;
    unfold dotp, det3 in *; cbn [zip_with foldr fst snd]; intros Hne.
  all: field; (split; [exact HD|]); intros E; apply Hne;
    (etrans; [|exact E]); ring.
Qed.

End Points.

(** The projective scales of pixels on the camera of the concrete scenario:
    the plane [Z = z] is met in front of the camera or behind it, at
    infinity only for the pixels of the horizon line. *)
Lemma camera_homogeneous_solution fl s w h oh tilt (pts : list (R * R)) z :
  let F := fl * 1e-3 / (s * 1e-3) * w in
  let a := tilt * PI / 180 in
  F ≠ 0 → z ≠ oh →
  ∃ xs ys,
    homogeneous_solution (camera fl s w h oh tilt) [pts.*1; pts.*2] z 2
    = Ok [xs; ys;
          map (λ p, (sin a * p.2 + (F * cos a - h / 2 * sin a)) / (F * (z - oh)))
            pts].
Proof.
  intros F a HF Hz.
  assert (F ^ 2 * (z - oh) ≠ 0) as HD.
  { apply Rmult_integral_contrapositive_currified; [by apply pow_nonzero|lra]. }
  unfold homogeneous_solution. rewrite vstack_ones, (points_rows fst snd).
  cbn [mbind result_bind]. unfold reduced_matrix, getattr. rewrite camera_C.
  fold F a.
  cbn [mbind result_bind mapM reduce_row lookup list_lookup insert list_insert take].
  pose proof (camera_det3 fl s w h oh tilt z) as E. cbv zeta in E. fold F a in E.
  rewrite solve_points by (rewrite E; exact HD).
  cbv zeta. rewrite E. cbn [map]. eexists _, _. do 4 f_equal.
  apply map_ext. intros [u v]. unfold dotp. cbn [zip_with foldr fst snd].
  field. split; [lra|done].
Qed.

(** ** The rounds of [transCamToEarth] that are run *)

Section Rounds.

Variable self : gmap string value.
Variables (point : list R) (r max_distance : R).








End Rounds.








Lemma transCamToWorld_on_axis self x dimension fixed :
  (dimension < 3)%nat →
  transCamToWorld_on self x dimension fixed = back_project self x fixed dimension.
Proof.
  intros Hdim. destruct dimension as [|[|[|]]]; [done..|lia].
Qed.

(** ** Round trips of arrays of points *)

(** From the image to the world and back.  For a camera whose camera matrix
    is a 3x4 matrix and pixels [pts], in any number, back-projected onto a
    plane [X = c], [Y = c] or [Z = c]: if the linear system has a solution
    and the projective scale of no pixel is zero, then [transCamToWorld]
    returns world points and [transWorldToCam] sends them to the pixels they
    came from. *)
Theorem image_world_image_roundtrip self
    c11 c12 c13 c14 c21 c22 c23 c24 c31 c32 c33 c34
    (pts : list (R * R)) c dimension S scale :
  self !! "C" = Some (VArr [[c11; c12; c13; c14]; [c21; c22; c23; c24];
                            [c31; c32; c33; c34]]) →
  (dimension < 3)%nat →
  homogeneous_solution self [pts.*1; pts.*2] c dimension = Ok S →
  S !! dimension = Some scale →
  Forall (λ s, s ≠ 0) scale →
  ∃ p, transCamToWorld_on self (Arr2 [pts.*1; pts.*2]) dimension (Scalar c) = Ok p
       ∧ transWorldToCam self (Arr2 p) = Ok [pts.*1; pts.*2].
Proof.
  intros HC Hdim HS Hscale Hne. rewrite transCamToWorld_on_axis by done.
  destruct (image_world_image_points _ _ _ _ _ _ _ _ _ _ _ _ _ HC pts c dimension
              S scale) as (p & H1 & _ & H2); try done.
  by exists p.
Qed.

(** The round trip from the image on the camera of the concrete scenario,
    for the pixel (2000, 2000) and the plane [Z = 0]. *)
Lemma image_world_image_roundtrip_witness :
  ∃ p, transCamToWorld_on (camera 16 10 4000 3000 20 80) (Arr2 [[2000]; [2000]]) 2
         (Scalar 0) = Ok p
       ∧ transWorldToCam (camera 16 10 4000 3000 20 80) (Arr2 p)
         = Ok [[2000]; [2000]].
Proof.
  destruct (camera_homogeneous_solution 16 10 4000 3000 20 80 [(2000, 2000)] 0)
    as (x & y & HS); [lra..|].
  apply (image_world_image_roundtrip (camera 16 10 4000 3000 20 80)
           _ _ _ _ _ _ _ _ _ _ _ _ [(2000, 2000)] 0 2 _ _
           (camera_C 16 10 4000 3000 20 80) ltac:(lia) HS eq_refl).
  constructor; [|constructor]. cbn [snd].
  pose proof sin_80_pos. pose proof cos_80_pos.
  apply Rmult_integral_contrapositive_currified.
  - assert (0 < sin (80 * PI / 180) * 2000
              + (16 * 1e-3 / (10 * 1e-3) * 4000 * cos (80 * PI / 180)
                 - 3000 / 2 * sin (80 * PI / 180))); [nra|lra].
  - apply Rinv_neq_0_compat. lra.
Defined.

(** From the world to the image and back.  For a camera whose camera matrix
    is a 3x4 matrix and world points, in any number, on a plane [X = c],
    [Y = c] or [Z = c]: if the reduced matrix of that plane is not singular
    and no point has depth zero, then [transWorldToCam] returns their pixels
    and [transCamToWorld] with the coordinate fixed to [c] returns the
    points. *)
Theorem world_image_world_roundtrip self
    c11 c12 c13 c14 c21 c22 c23 c24 c31 c32 c33 c34
    (q : list (R * R)) c dimension P :
  self !! "C" = Some (VArr [[c11; c12; c13; c14]; [c21; c22; c23; c24];
                            [c31; c32; c33; c34]]) →
  (dimension < 3)%nat →
  reduced_matrix self c dimension = Ok P → det P ≠ 0 →
  Forall (λ p, ∃ d, depth self p = Ok d ∧ d ≠ 0)
    (transpose (plane_points dimension c q)) →
  ∃ img,
    transWorldToCam self (Arr2 (plane_points dimension c q)) = Ok img
    ∧ transCamToWorld_on self (Arr2 img) dimension (Scalar c)
      = Ok (plane_points dimension c q).
Proof.
  intros HC Hdim HP HD Hdepth.
  destruct (world_image_world_points _ _ _ _ _ _ _ _ _ _ _ _ _ HC q c dimension P)
    as (img & H1 & H2); try done.
  exists img. split; [done|]. by rewrite transCamToWorld_on_axis.
Qed.

Lemma camera_reduced_det_Y fl s w h oh tilt y P :
  reduced_matrix (camera fl s w h oh tilt) y 1 = Ok P →
  det P = (fl * 1e-3 / (s * 1e-3) * w) ^ 2 * y.
Proof.
  unfold reduced_matrix, getattr. rewrite camera_C. np_cbn. intros [= <-].
  cbn [det]. unfold det3.
  set (a := tilt * PI / 180). set (F := fl * 1e-3 / (s * 1e-3) * w).
  transitivity (F ^ 2 * y * ((sin a)² + (cos a)²)).
  - unfold Rsqr. ring.
  - rewrite sin2_cos2. ring.
Qed.

(** The round trip from the world on the camera of the concrete scenario,
    for the points (0, 50, 0) and (10, 50, 5) of the plane [Y = 50]. *)
Lemma world_image_world_roundtrip_witness :
  ∃ img,
    transWorldToCam (camera 16 10 4000 3000 20 80)
      (Arr2 (plane_points 1 50 [(0, 0); (10, 5)])) = Ok img
    ∧ transCamToWorld_on (camera 16 10 4000 3000 20 80) (Arr2 img) 1 (Scalar 50)
      = Ok (plane_points 1 50 [(0, 0); (10, 5)]).
Proof.
  assert (HP : ∃ P, reduced_matrix (camera 16 10 4000 3000 20 80) 50 1 = Ok P).
  { unfold reduced_matrix, getattr. rewrite camera_C. np_cbn. by eexists. }
  destruct HP as [P HP].
  apply (world_image_world_roundtrip (camera 16 10 4000 3000 20 80)
           _ _ _ _ _ _ _ _ _ _ _ _ [(0, 0); (10, 5)] 50 1 P
           (camera_C 16 10 4000 3000 20 80) ltac:(lia) HP).
  - rewrite (camera_reduced_det_Y _ _ _ _ _ _ _ _ HP). lra.
  - pose proof sin_80_pos. pose proof cos_80_pos.
    unfold plane_points. np_cbn.
    apply Forall_cons_2; [|apply Forall_cons_2; [|apply Forall_nil_2]];
      eexists; (split; [apply camera_depth|]); cbn [fst snd]; lra.
Defined.

(** ** The shape of a back-projection *)

(** Whatever the camera, the pixels and the axis: when the back-projection
    with one coordinate fixed returns, it returns an array of three rows
    with one column for each pixel, the axis is one of the three, and the
    row of the fixed axis holds the fixed value in every column. *)
Theorem backproject_fixed_coordinate self x v dimension p :
  _transCamToWorldFixedDimension self x v dimension = Ok p →
  (dimension < 3)%nat
  ∧ length p = 3%nat
  ∧ Forall (λ r, length r = ncols x) p
  ∧ p !! dimension = Some (replicate (ncols x) v).
Proof.
  unfold _transCamToWorldFixedDimension. rewrite vstack_ones.
  cbn [mbind result_bind]. intros H.
  inv_bind H as P EP. inv_bind H as X EX.
  apply solve_shape in EX as [HX Hrows].
  rewrite ncols_vstack in Hrows by (unfold ones; by rewrite length_replicate).
  match type of H with
  | match ?t with _ => _ end = _ => destruct t as [s|] eqn:Es; [|discriminate H]
  end.
  injection H as <-.
  assert (dimension < 3)%nat as Hdim by (rewrite <- HX; by eapply lookup_lt_Some).
  assert (length s = ncols x) as Hs.
  { eapply Forall_lookup_1 in Hrows; [|exact Es]. done. }
  split; [done|]. split; [by rewrite length_insert, length_map|].
  split.
  - apply Forall_insert.
    + apply Forall_fmap. eapply Forall_impl; [exact Hrows|].
      intros r Hr. unfold compose. rewrite length_zip_with, Hr, Hs.
      apply Nat.min_id.
    + by rewrite length_map.
  - transitivity (Some (map (λ _ : R, v) s)).
    + apply list_lookup_insert_eq. rewrite length_map. lia.
    + f_equal. rewrite <- Hs. by apply const_fmap.
Qed.


(** The shape on the camera of the concrete scenario, for the pixel
    (2000, 2000) and the plane [Z = 0]. *)
Lemma backproject_fixed_coordinate_witness :
  ∃ p,
    _transCamToWorldFixedDimension (camera 16 10 4000 3000 20 80)
      [[2000]; [2000]] 0 2 = Ok p
    ∧ length p = 3%nat
    ∧ Forall (λ r, length r = 1%nat) p
    ∧ p !! 2%nat = Some [0].
Proof.
  destruct (backproject_nonsingular _ _ _ _ _ _ _ _ _ _ _ _ _
              (camera_C 16 10 4000 3000 20 80) 2000 2000 0) as (a & b & Hab).
  { rewrite camera_det3. lra. }
  exists [[a]; [b]; [0]]. split; [exact Hab|].
  apply (backproject_fixed_coordinate _ _ _ _ _ Hab).
Defined.

(** ** The two branches of [transCamToWorld] *)

(** [for i in range(len(l))] with a body that reads the [i]-th element. *)
Lemma mapM_seq_lookup {A B} (g : nat → result B) (h : A → B) (l : list A) :
  ∀ s, (∀ i a, l !! i = Some a → g (s + i)%nat = Ok (h a)) →
       mapM g (seq s (length l)) = Ok (map h l).
Proof.
  induction l as [|a l IH]; intros s Hg; [done|].
  cbn [length seq mapM map].
  rewrite <- (Nat.add_0_r s) at 1. rewrite (Hg 0%nat a) by done.
  cbn [mbind result_bind]. rewrite (IH (S s)); [done|].
  intros i b Hi. replace (S s + i)%nat with (s + S i)%nat by lia. by apply Hg.
Qed.

Lemma mapM_seq_raise {B} (g : nat → result B) s n e :
  g s = Raise e → mapM g (seq s (S n)) = Raise e.
Proof. intros H. cbn [seq mapM]. by rewrite H. Qed.

Lemma mapM_Ok_inv {A B} (k : A → result B) l bs :
  mapM k l = Ok bs → ∀ a, a ∈ l → ∃ b, k a = Ok b.
Proof.
  revert bs. induction l as [|a l IH]; intros bs H a' Ha'.
  { by apply elem_of_nil in Ha'. }
  cbn [mapM] in H. inv_bind H as b Eb. inv_bind H as bs' Ebs.
  apply elem_of_cons in Ha' as [->|Ha']; [by exists b|by eapply IH].
Qed.

Lemma mapM_ext_in {A B} (k k' : A → result B) l :
  (∀ a, a ∈ l → k a = k' a) → mapM k l = mapM k' l.
Proof.
  induction l as [|a l IH]; intros H; [done|]. cbn [mapM].
  rewrite (H a) by left. rewrite IH; [done|]. intros; apply H; by right.
Qed.

(** The column [i] of an array of points, cut out as [x[:, i:i+1]]. *)
Lemma point_slice {A} (f : A → R) (l : list A) i a :
  l !! i = Some a → take 1 (drop i (map f l)) = [f a].
Proof.
  revert i. induction l as [|b l IH]; intros [|i] Hi; try done.
  - injection Hi as ->. cbn. by rewrite take_0.
  - cbn. by apply IH.
Qed.

Lemma back_project_constant self (pts : list (R * R)) v dim :
  pts ≠ [] →
  back_project self (Arr2 [pts.*1; pts.*2]) (PerPoint (replicate (length pts) v)) dim
  = back_project self (Arr2 [pts.*1; pts.*2]) (Scalar v) dim.
Proof.
  intros Hne. unfold back_project. cbn [as_columns ncols].
  change (pts.*1) with (map fst pts). change (pts.*2) with (map snd pts).
  rewrite length_map, backproject_points.
  assert (∀ i p, pts !! i = Some p →
            replicate (length pts) v !! i = Some v
            ∧ map (λ r, take 1 (drop i r)) [map fst pts; map snd pts]
              = [map fst [p]; map snd [p]]) as Hi.
  { intros i p Hp. split.
    - apply lookup_replicate_2. by eapply lookup_lt_Some.
    - cbn [map]. by rewrite !(point_slice _ _ _ _ Hp). }
  destruct (reduced_matrix self v dim) as [P|e] eqn:EP.
  2: { destruct pts as [|p pts]; [done|].
       destruct (Hi 0%nat p) as [H1 H2]; [done|].
       cbn [length] in H1; cbn [length mbind result_bind].
       rewrite (mapM_seq_raise _ _ _ e); [done|].
       cbn beta. rewrite H1, H2, backproject_points, EP. done. }
  cbn [mbind result_bind].
  destruct (solve_columnwise P (fst : R * R → R) snd (λ _, 1)) as [[e He]|[Pinv Hs]].
  { rewrite He. destruct pts as [|p pts]; [done|].
    destruct (Hi 0%nat p) as [H1 H2]; [done|].
    cbn [length] in H1; cbn [length mbind result_bind].
    rewrite (mapM_seq_raise _ _ _ e); [done|].
    cbn beta. rewrite H1, H2, backproject_points, EP. cbn [mbind result_bind].
    by rewrite He. }
  set (X := λ (r : list R) (x : R * R), dotp r [x.1; x.2; 1]).
  assert (∀ l, solve P (map (λ k : R * R → R, map k l) [fst; snd; λ _, 1])
               = Ok (map (λ r, map (X r) l) Pinv)) as Hs' by exact Hs.
  clear Hs. rewrite Hs'. cbn [mbind result_bind].
  assert (∀ l, map (λ r, map (X r) l) Pinv !! dim
               = (λ r, map (X r) l) <$> Pinv !! dim) as Hlook.
  { intros l. apply list_lookup_fmap. }
  rewrite Hlook.
  destruct (Pinv !! dim) as [rd|] eqn:Ed; cbn [fmap option_fmap option_map].
  2: { destruct pts as [|p pts]; [done|].
       destruct (Hi 0%nat p) as [H1 H2]; [done|].
       cbn [length] in H1; cbn [length mbind result_bind].
       rewrite (mapM_seq_raise _ _ _ IndexError); [done|].
       cbn beta. rewrite H1, H2, backproject_points, EP. cbn [mbind result_bind].
       rewrite Hs'. cbn [mbind result_bind]. by rewrite Hlook. }
  set (fs := <[dim := λ _ : R * R, v]> (map (λ r x, X r x / X rd x) Pinv)).
  rewrite (mapM_seq_lookup _ (λ p, map (λ k, k p) fs)).
  - cbn [mbind result_bind].
    assert (∀ h : R * R → list R,
              match map h pts with
              | [] => Raise IndexError
              | _ :: _ => Ok (transpose (map h pts))
              end = Ok (transpose (map h pts))) as -> by (intros h; by destruct pts).
    rewrite transpose_columns by done.
    f_equal. unfold fs. rewrite map_map.
    etrans; [apply list_fmap_insert|]. f_equal.
    rewrite !map_map. apply map_ext. intros r. by rewrite zip_with_fmaps.
  - intros i p Hp. destruct (Hi i p Hp) as [H1 H2]. cbn [Nat.add].
    rewrite H1, H2, backproject_points, EP. cbn [mbind result_bind].
    rewrite Hs'. cbn [mbind result_bind]. rewrite Hlook.
    cbn [fmap option_fmap option_map mbind result_bind map]. f_equal.
    unfold col, fs. rewrite !map_map.
    etrans; [apply list_fmap_insert|]. symmetry.
    etrans; [apply list_fmap_insert|]. cbn [nth]. f_equal.
    by rewrite !map_map.
Qed.

(** Whatever the camera and the axis: for at least one pixel, a sequence
    that repeats one value for every pixel gives what the value itself
    gives, the same points or the same exception.  The branch that
    transforms the pixels one by one and the branch that transforms them in
    one go agree. *)
Theorem transCamToWorld_constant_list self (pts : list (R * R)) v dimension :
  pts ≠ [] → (dimension < 3)%nat →
  transCamToWorld_on self (Arr2 [pts.*1; pts.*2]) dimension
    (PerPoint (replicate (length pts) v))
  = transCamToWorld_on self (Arr2 [pts.*1; pts.*2]) dimension (Scalar v).
Proof.
  intros Hne Hdim. rewrite !transCamToWorld_on_axis by done.
  by apply back_project_constant.
Qed.

(** Both branches on the camera of the concrete scenario, for two pixels and
    the plane [Z = 0]. *)
Lemma transCamToWorld_constant_list_witness :
  transCamToWorld (camera 16 10 4000 3000 20 80)
    (Arr2 [[2000; 1000]; [2000; 2500]]) None None (Some (PerPoint [0; 0]))
  = transCamToWorld (camera 16 10 4000 3000 20 80)
      (Arr2 [[2000; 1000]; [2000; 2500]]) None None (Some (Scalar 0)).
Proof.
  apply (transCamToWorld_constant_list (camera 16 10 4000 3000 20 80)
           [(2000, 2000); (1000, 2500)] 0 2); [done|lia].
Defined.

(** Whatever the camera and the pixels: a sequence of fixed values with
    fewer values than there are pixels never gives a result, the call
    raises; of a sequence with more values only the first ones, one for each
    pixel, are read. *)
Theorem transCamToWorld_list_length self x vs dimension :
  (dimension < 3)%nat →
  let n := ncols (as_columns x) in
  ((length vs < n)%nat →
   ∃ e, transCamToWorld_on self x dimension (PerPoint vs) = Raise e)
  ∧ ((n ≤ length vs)%nat →
     transCamToWorld_on self x dimension (PerPoint vs)
     = transCamToWorld_on self x dimension (PerPoint (take n vs))).
Proof.
  intros Hdim n. rewrite !transCamToWorld_on_axis by done.
  unfold back_project. fold n. split.
  - intros Hlen.
    destruct (mapM _ (seq 0 n)) as [cols|e] eqn:E; [|by exists e].
    apply mapM_Ok_inv with (a := length vs) in E as [b Hb].
    + rewrite lookup_ge_None_2 in Hb by lia. discriminate Hb.
    + apply elem_of_seq. lia.
  - intros Hlen. f_equal. apply mapM_ext_in. intros i Hi%elem_of_seq.
    by rewrite lookup_take_lt by lia.
Qed.

(** The length of the sequence on the camera of the concrete scenario, for
    two pixels: one value raises, three values give what the first two
    give. *)
Lemma transCamToWorld_list_length_witness :
  let cam := camera 16 10 4000 3000 20 80 in
  let x := Arr2 [[2000; 1000]; [2000; 2500]] in
  (∃ e, transCamToWorld cam x None None (Some (PerPoint [0])) = Raise e)
  ∧ transCamToWorld cam x None None (Some (PerPoint [0; 0; 7]))
    = transCamToWorld cam x None None (Some (PerPoint [0; 0])).
Proof.
  intros cam x. split.
  - apply (transCamToWorld_list_length cam x [0] 2); cbn; lia.
  - apply (transCamToWorld_list_length cam x [0; 0; 7] 2); cbn; lia.
Defined.

(** ** The extent of the image on the ground *)

(** For a camera whose camera matrix is a 3x4 matrix and whose image size is
    stored: if the linear system of the four image corners on the plane
    [Z = 0] has a solution and no corner has the projective scale zero, then
    [getImageExtend] returns four world points of height 0, and these are
    projected to the four corners of the image, in the order (0, 0),
    (0, im_height), (im_width, im_height), (im_width, 0). *)
Theorem getImageExtend_corners self
    c11 c12 c13 c14 c21 c22 c23 c24 c31 c32 c33 c34 iw ih S scale :
  let corners := [[0; 0; iw; iw]; [0; ih; ih; 0]] in
  self !! "C" = Some (VArr [[c11; c12; c13; c14]; [c21; c22; c23; c24];
                            [c31; c32; c33; c34]]) →
  self !! "im_width" = Some (VNum iw) →
  self !! "im_height" = Some (VNum ih) →
  homogeneous_solution self corners 0 2 = Ok S →
  S !! 2%nat = Some scale →
  Forall (λ s, s ≠ 0) scale →
  ∃ p, getImageExtend self = Ok p
       ∧ p !! 2%nat = Some [0; 0; 0; 0]
       ∧ transWorldToCam self (Arr2 p) = Ok corners.
Proof.
  intros corners HC Hw Hh HS Hscale Hne.
  unfold getImageExtend, getattr. rewrite Hh, Hw. cbn [mbind result_bind].
  change (transpose [[0; 0]; [0; ih]; [iw; ih]; [iw; 0]]) with corners.
  cbn [transCamToWorld back_project count_none Nat.add Nat.eqb negb mbind result_bind
       as_columns].
  apply (image_world_image_points _ _ _ _ _ _ _ _ _ _ _ _ _ HC
           [(0, 0); (0, ih); (iw, ih); (iw, 0)] 0 2 S scale); try done. lia.
Qed.

Lemma sin_cos_45 : sin (45 * PI / 180) = cos (45 * PI / 180) ∧ 0 < sin (45 * PI / 180).
Proof.
  replace (45 * PI / 180) with (PI / 4) by lra.
  rewrite sin_PI4, cos_PI4. split; [done|].
  apply Rdiv_lt_0_compat; [lra|]. apply sqrt_lt_R0. lra.
Qed.

(** The extent of the image of a camera like that of the concrete scenario
    and tilted by 45 degrees: 16 mm lens, 10 mm sensor, 4000 x 3000 pixels,
    height 20. *)
Lemma getImageExtend_corners_witness :
  ∃ p, getImageExtend (camera 16 10 4000 3000 20 45) = Ok p
       ∧ p !! 2%nat = Some [0; 0; 0; 0]
       ∧ transWorldToCam (camera 16 10 4000 3000 20 45) (Arr2 p)
         = Ok [[0; 0; 4000; 4000]; [0; 3000; 3000; 0]].
Proof.
  destruct (camera_homogeneous_solution 16 10 4000 3000 20 45
              [(0, 0); (0, 3000); (4000, 3000); (4000, 0)] 0)
    as (xs & ys & HS); [lra..|].
  apply (getImageExtend_corners (camera 16 10 4000 3000 20 45)
           _ _ _ _ _ _ _ _ _ _ _ _ 4000 3000 _ _
           (camera_C 16 10 4000 3000 20 45) ltac:(camera_lookup)
           ltac:(camera_lookup) HS eq_refl).
  destruct sin_cos_45 as [E Hpos]. rewrite <- E.
  repeat (apply Forall_cons_2; [|]); [..|apply Forall_nil_2]; cbn [snd];
    (apply Rmult_integral_contrapositive_currified;
     [nra|apply Rinv_neq_0_compat; lra]).
Defined.

(** ** The rotation block of the rigid transform *)

Lemma rotation_block_orthonormal angle roll heading :
  let Q := mmul (mmul (rot_z roll) (rot_tilt angle)) (rot_z heading) in
  mmul Q (transpose Q) = eye3 ∧ det Q = 1.
Proof.
  intros Q. unfold Q, rot_z, rot_tilt, eye3. np_cbn. cbn [det]. unfold det3.
  pose proof (sin2_cos2 angle) as H1. pose proof (sin2_cos2 roll) as H2.
  pose proof (sin2_cos2 heading) as H3. unfold Rsqr in *.
  generalize dependent (sin angle). generalize dependent (cos angle).
  generalize dependent (sin roll). generalize dependent (cos roll).
  generalize dependent (sin heading). generalize dependent (cos heading).
  intros c3 s3 H3 c2 s2 H2 c1 s1 H1.
  split.
  - repeat (f_equal; try nsatz).
  - nsatz.
Qed.

(** After every successful rebuild of the camera matrix, [R] is a rigid
    transform: its last row is (0, 0, 0, 1) and its rotation block, the
    first three columns of the first three rows, is orthonormal with
    determinant 1, whatever the tilt, the roll and the heading are. *)
Theorem initCameraMatrix_rigid h ta ra self self' :
  _initCameraMatrix h ta ra self = Ok self' →
  ∃ q11 q12 q13 q21 q22 q23 q31 q32 q33 t1 t2 t3,
    let Q := [[q11; q12; q13]; [q21; q22; q23]; [q31; q32; q33]] in
    self' !! "R" = Some (VArr [[q11; q12; q13; t1]; [q21; q22; q23; t2];
                               [q31; q32; q33; t3]; [0; 0; 0; 1]])
    ∧ mmul Q (transpose Q) = eye3
    ∧ det Q = 1.
Proof.
  intros H.
  apply initCameraMatrix_inv in H
    as (angle & roll & heading & px & py & hh & K & self1 & _ & _ & _ & _ & _ & ->).
  destruct (rotation_block_orthonormal angle roll heading) as [HQ Hdet].
  revert HQ Hdet. unfold rebuilt, setattr. cbn zeta. attrs.
  unfold rot_z, rot_tilt. np_cbn. intros HQ Hdet.
  do 12 eexists. split; [reflexivity|]. split; [exact HQ|exact Hdet].
Qed.

(** The rigid transform of the camera of the concrete scenario. *)
Lemma initCameraMatrix_rigid_witness :
  ∃ q11 q12 q13 q21 q22 q23 q31 q32 q33 t1 t2 t3,
    let Q := [[q11; q12; q13]; [q21; q22; q23]; [q31; q32; q33]] in
    camera 16 10 4000 3000 20 80 !! "R"
    = Some (VArr [[q11; q12; q13; t1]; [q21; q22; q23; t2];
                  [q31; q32; q33; t3]; [0; 0; 0; 1]])
    ∧ mmul Q (transpose Q) = eye3
    ∧ det Q = 1.
Proof.
  apply (initCameraMatrix_rigid None None None (posed 16 10 4000 3000 20 80)
           (camera 16 10 4000 3000 20 80)).
  apply rebuild_posed.
Defined.

(** ** The horizon *)

Lemma distanceToHorizon_run self Re h :
  self !! "R_earth" = Some (VNum Re) → self !! "height" = Some (VNum h) →
  Re + h ≠ 0 →
  distanceToHorizon self = Ok (sqrt (2 * Re ^ 2 * (1 - Re / (Re + h)))).
Proof.
  intros HR Hh Hne. unfold distanceToHorizon, getattr. rewrite HR, Hh.
  cbn [mbind result_bind num]. by rewrite decide_False.
Qed.

Lemma div_nonneg a b : 0 <= a → 0 < b → 0 <= a / b.
Proof.
  intros Ha Hb. unfold Rdiv. apply Rmult_le_pos; [done|].
  left. by apply Rinv_0_lt_compat.
Qed.

Lemma horizon_radicand Re h :
  0 < Re → 0 <= h → 2 * Re ^ 2 * (1 - Re / (Re + h)) = 2 * Re ^ 2 * (h / (Re + h)).
Proof. intros HRe Hh. field. lra. Qed.

(** For a positive earth radius, the distance to the horizon is 0 at the
    height 0, grows strictly with the height of the camera from there on
    and stays below [sqrt 2] times the earth radius. *)
Theorem distanceToHorizon_increasing self Re h1 h2 :
  self !! "R_earth" = Some (VNum Re) → 0 < Re → 0 <= h1 → h1 < h2 →
  ∃ d0 d1 d2,
    distanceToHorizon (fixHeight 0 self) = Ok d0
    ∧ distanceToHorizon (fixHeight h1 self) = Ok d1
    ∧ distanceToHorizon (fixHeight h2 self) = Ok d2
    ∧ d0 = 0 ∧ 0 <= d1 < d2 ∧ d2 < sqrt 2 * Re.
Proof.
  intros HR HRe Hh1 Hlt.
  assert (∀ h, 0 <= h →
               distanceToHorizon (fixHeight h self)
               = Ok (sqrt (2 * Re ^ 2 * (1 - Re / (Re + h))))) as Hrun.
  { intros h Hh. apply distanceToHorizon_run; unfold fixHeight, setattr.
    - by rewrite lookup_insert_ne.
    - by rewrite lookup_insert_eq.
    - lra. }
  eexists _, _, _. rewrite !Hrun by lra. repeat split.
  - rewrite horizon_radicand by lra.
    replace (2 * Re ^ 2 * (0 / (Re + 0))) with 0 by (field; lra). apply sqrt_0.
  - apply sqrt_pos.
  - apply sqrt_lt_1_alt. rewrite !horizon_radicand by lra.
    assert (0 <= h1 / (Re + h1)) by (apply div_nonneg; lra).
    assert (h1 / (Re + h1) < h2 / (Re + h2)).
    { apply Rlt_0_minus.
      replace (h2 / (Re + h2) - h1 / (Re + h1))
        with (Re * (h2 - h1) / ((Re + h1) * (Re + h2))) by (field; lra).
      apply Rdiv_lt_0_compat; apply Rmult_lt_0_compat; lra. }
    assert (0 < 2 * Re ^ 2) by nra.
    split; [by apply Rmult_le_pos; [lra|]|by apply Rmult_lt_compat_l].
  - replace (sqrt 2 * Re) with (sqrt 2 * sqrt (Re ^ 2)).
    + rewrite <- sqrt_mult by nra. apply sqrt_lt_1_alt.
      rewrite horizon_radicand by lra.
      assert (0 <= h2 / (Re + h2) < 1).
      { split; [apply div_nonneg; lra|].
        apply Rmult_lt_reg_r with (Re + h2); [lra|].
        replace (h2 / (Re + h2) * (Re + h2)) with h2 by (field; lra). lra. }
      assert (0 < 2 * Re ^ 2) by nra.
      split; [apply Rmult_le_pos; lra|].
      rewrite <- (Rmult_1_r (2 * Re ^ 2)) at 2. apply Rmult_lt_compat_l; lra.
    + f_equal. replace (Re ^ 2) with (Re * Re) by ring. apply sqrt_square. lra.
Qed.

(** The distances to the horizon from the heights 0, 20 and 30 on the earth
    of the class. *)
Lemma distanceToHorizon_increasing_witness :
  ∃ d0 d1 d2,
    distanceToHorizon (fixHeight 0 class_attributes) = Ok d0
    ∧ distanceToHorizon (fixHeight 20 class_attributes) = Ok d1
    ∧ distanceToHorizon (fixHeight 30 class_attributes) = Ok d2
    ∧ d0 = 0 ∧ 0 <= d1 < d2 ∧ d2 < sqrt 2 * 6371e3.
Proof.
  apply (distanceToHorizon_increasing class_attributes 6371e3 20 30);
    [by class_lookup|lra..].
Defined.

Lemma camera_im_width fl s w h oh tilt :
  camera fl s w h oh tilt !! "im_width" = Some (VNum w).
Proof. camera_lookup. Qed.

(** The horizon of a camera without roll is level.  For the camera that the
    constructor builds from a focal length, a sensor width, an image size, a
    height of at least 0 and a tilt, with [d] its distance to the horizon:
    if the ground point at the distance [d] straight ahead has a depth other
    than zero, then [getImageHorizon] returns the three pixels of the
    columns 0, [im_width / 2] and [im_width] in one and the same row, the
    row of the image of that ground point, which lies in the centre
    column. *)
Theorem getImageHorizon_level fl s w h oh tilt d dp :
  let cam := camera fl s w h oh tilt in
  fl * 1e-3 / (s * 1e-3) * w ≠ 0 →
  0 <= oh →
  distanceToHorizon cam = Ok d →
  depth cam [0; d; 0] = Ok dp → dp ≠ 0 →
  ∃ v, getImageHorizon cam = Ok [[0; w / 2; w]; [v; v; v]]
       ∧ transWorldToCam cam (Arr1 [0; d; 0]) = Ok [[w / 2]; [v]].
Proof.
  intros cam HF Hoh Hd Hdp Hne. unfold cam in *.
  set (F := fl * 1e-3 / (s * 1e-3) * w) in *. set (a := tilt * PI / 180).
  rewrite camera_depth in Hdp. fold a in Hdp. injection Hdp as <-.
  assert (sin a * d + oh * cos a ≠ 0) as Hden by (intros E; apply Hne; lra).
  exists (h / 2 - F * (cos a * d - oh * sin a) / (sin a * d + oh * cos a)).
  split.
  - unfold getImageHorizon. rewrite Hd.
    cbn [mbind result_bind]. unfold getattr. rewrite camera_C, camera_im_width.
    fold F a.
    cbn [mbind result_bind mapM horizon_row lookup list_lookup insert list_insert
         set_column_2 map take num].
    unfold solve. cbn [nrows transpose ncols length map seq col nth Nat.eqb negb].
    cbv zeta.
    match goal with
    | |- context [decide (?D = 0)] =>
        assert (D = - F * (sin a * d + oh * cos a)) as HD by (unfold det3; ring);
        rewrite (decide_False (P := D = 0))
    end.
    + cbn [mbind result_bind mmul transpose ncols length map seq col nth dotp
           zip_with foldr lookup list_lookup insert list_insert take].
      rewrite HD.
      do 3 f_equal. repeat (f_equal; try (field; split; done)).
    + rewrite HD. apply Rmult_integral_contrapositive_currified; [lra|done].
  - erewrite transWorldToCam_point by apply camera_C. fold F a.
    cbn [nth]. unfold dotp. cbn [zip_with foldr].
    do 2 f_equal; [|f_equal]; f_equal; field; lra.
Qed.

(** The horizon of the camera of the concrete scenario. *)
Lemma getImageHorizon_level_witness :
  let cam := camera 16 10 4000 3000 20 80 in
  ∃ d v, distanceToHorizon cam = Ok d
         ∧ getImageHorizon cam = Ok [[0; 4000 / 2; 4000]; [v; v; v]]
         ∧ transWorldToCam cam (Arr1 [0; d; 0]) = Ok [[4000 / 2]; [v]].
Proof.
  intros cam.
  set (d := sqrt (2 * 6371e3 ^ 2 * (1 - 6371e3 / (6371e3 + 20)))).
  assert (Hd : distanceToHorizon cam = Ok d).
  { apply distanceToHorizon_run; [camera_lookup..|lra]. }
  destruct (getImageHorizon_level 16 10 4000 3000 20 80 d _ ltac:(lra) ltac:(lra) Hd
              (camera_depth 16 10 4000 3000 20 80 0 d 0)) as (v & H1 & H2).
  - pose proof sin_80_pos. pose proof cos_80_pos.
    assert (0 <= d) by apply sqrt_pos. nra.
  - by exists d, v.
Defined.

(** ** GPS positions *)

Import NpAngle.

Lemma zero_div x : 0 / x = 0.
Proof. unfold Rdiv. apply Rmult_0_l. Qed.

Lemma arctan2_zero_nonneg x : 0 <= x → arctan2 0 x = 0.
Proof.
  intros Hx. unfold arctan2. repeat destruct (decide _); try lra.
  by rewrite zero_div, atan_0.
Qed.


Lemma rad2deg_deg2rad x : rad2deg (deg2rad x) = x.
Proof. unfold rad2deg, deg2rad. field. apply PI_neq0. Qed.

Lemma deg2rad_bounds x : -90 <= x <= 90 → - (PI / 2) <= deg2rad x <= PI / 2.
Proof. intros H. pose proof PI_RGT_0. unfold deg2rad. nra. Qed.





(** Moving a position between the poles by the distance 0 gives the position
    back, whatever the bearing. *)
Theorem moveGPS_zero_distance self Re lat lon bearing :
  self !! "R_earth" = Some (VNum Re) → Re ≠ 0 →
  -90 <= lat <= 90 →
  moveGPS self lat lon 0 bearing = Ok (lat, lon).
Proof.
  intros HR _ Hlat. unfold moveGPS, getattr. rewrite HR.
  cbn [mbind result_bind num]. rewrite zero_div, sin_0, cos_0.
  set (phi := deg2rad lat).
  assert (Hphi : - (PI / 2) <= phi <= PI / 2) by by apply deg2rad_bounds.
  replace (sin phi * 1 + cos phi * 0 * cos (deg2rad bearing)) with (sin phi) by ring.
  rewrite asin_sin by done.
  replace (sin (deg2rad bearing) * 0 * cos phi) with 0 by ring.
  rewrite arctan2_zero_nonneg.
  - rewrite Rplus_0_r. unfold phi. by rewrite !rad2deg_deg2rad.
  - pose proof (sin2_cos2 phi) as E. unfold Rsqr in E. nra.
Qed.

(** The position (53, 10) moved by 0 m in the direction of 77 degrees. *)
Lemma moveGPS_zero_distance_witness :
  moveGPS class_attributes 53 10 0 77 = Ok (53, 10).
Proof.
  apply (moveGPS_zero_distance class_attributes 6371e3 53 10 77);
    [by class_lookup|lra..].
Defined.















(** ** Parameters held in a fit *)

(** The removals of [_fit] on an instance, name by name. *)
Lemma free_parameters_member self :
  instance self →
  ∃ fp,
    free_parameters self pose_parameters = Ok fp
    ∧ NoDup fp
    ∧ ∀ name, name ∈ fp ↔
        name ∈ pose_parameters
        ∧ (name = "tilt" ∨ fixed_parameter self name = false).
Proof.
  intros Hi.
  destruct (instance_getattr self "roll" Hi) as [vr Hr]; [class_member|].
  destruct (instance_getattr self "heading" Hi) as [vh Hh]; [class_member|].
  destruct (instance_getattr self "height" Hi) as [vz Hz]; [class_member|].
  destruct (instance_getattr self "pos_x" Hi) as [vx Hx]; [class_member|].
  destruct (instance_getattr self "pos_y" Hi) as [vy Hy]; [class_member|].
  assert (Hnd : NoDup pose_parameters) by class_member.
  eexists. split.
  { unfold free_parameters.
    rewrite (remove_if_known_filter _ _ _ _ Hr Hnd) by class_member.
    cbn [mbind result_bind].
    rewrite (remove_if_known_filter _ _ _ _ Hh);
      [|by apply NoDup_filter|kept].
    cbn [mbind result_bind]. rewrite list_filter_filter.
    rewrite (remove_if_known_filter _ _ _ _ Hz);
      [|by apply NoDup_filter|kept].
    cbn [mbind result_bind]. rewrite list_filter_filter.
    rewrite (remove_if_known_filter _ _ _ _ Hx);
      [|by apply NoDup_filter|kept].
    cbn [mbind result_bind]. rewrite list_filter_filter.
    rewrite (remove_if_known_filter _ _ _ _ Hy);
      [|by apply NoDup_filter|kept].
    rewrite list_filter_filter. reflexivity. }
  split; [by apply NoDup_filter|].
  intros name. rewrite list_elem_of_filter. split.
  - intros [Hkeep Hin]. split; [done|].
    unfold pose_parameters in Hin.
    repeat (apply elem_of_cons in Hin as [->|Hin]);
      [..|by apply elem_of_nil in Hin];
      first [ by left
            | right;
              match goal with
              | |- fixed_parameter self ?k = false =>
                  destruct (fixed_parameter self k) eqn:E; [|done]
              end;
              exfalso; intuition ].
  - intros [Hin [->|Hfree]]; (split; [|done]).
    + repeat split; by intros [? _].
    + repeat split; intros [-> Ht]; congruence.
Qed.

Lemma fit_returns self :
  instance self →
  ∃ fp x0,
    _fit self = Ok (fp, x0, setattr "horizon_error" (VNum 0) self)
    ∧ length x0 = length fp
    ∧ ∀ name, name ∈ fp ↔
        name ∈ pose_parameters
        ∧ (name = "tilt" ∨ fixed_parameter self name = false).
Proof.
  intros Hi.
  destruct (free_parameters_member self Hi) as (fp & Hfp & _ & Hmem).
  destruct (instance_getattr self "estimated_height" Hi) as [e1 He1]; [class_member|].
  destruct (instance_getattr self "estimated_tilt" Hi) as [e2 He2]; [class_member|].
  destruct (instance_getattr self "estimated_roll" Hi) as [e3 He3]; [class_member|].
  destruct (instance_getattr self "estimated_heading" Hi) as [e4 He4]; [class_member|].
  destruct (mapM_total
              (λ key, match (list_to_map
                               [("height", e1); ("tilt", e2); ("roll", e3);
                                ("heading", e4); ("pos_x", VNum 0);
                                ("pos_y", VNum 0)] : gmap string value) !! key with
                      | Some v => Ok v
                      | None => Raise (KeyError key)
                      end) fp) as (x0 & Hx0 & Hlen).
  { intros key [Hkey _]%Hmem. unfold pose_parameters in Hkey.
    repeat (apply elem_of_cons in Hkey as [->|Hkey]);
      [..|by apply elem_of_nil in Hkey];
      (erewrite elem_of_list_to_map_1;
       [by eexists
       |class_member
       |repeat first [apply list_elem_of_here | apply list_elem_of_further]]). }
  exists fp, x0. split; [|by split].
  unfold _fit, estimates, getattr.
  rewrite He1, He2, He3, He4. cbn [mbind result_bind fmap list_fmap fst].
  fold pose_parameters. rewrite Hfp. cbn [mbind result_bind].
  unfold start_vector. rewrite Hx0. reflexivity.
Qed.

(** What [fixRoll] and [fixHeight] promise.  On every instance, after the
    roll and the height have been fixed, [_fit] returns, neither ["roll"] nor
    ["height"] is among the parameters that it hands to the optimizer, the
    tilt is, and the state it works on still holds the two fixed values. *)
Theorem fixed_parameters_not_fitted self roll height :
  instance self →
  ∃ fp x0 self',
    _fit (fixHeight height (fixRoll roll self)) = Ok (fp, x0, self')
    ∧ ("roll" ∉ fp) ∧ ("height" ∉ fp) ∧ "tilt" ∈ fp
    ∧ length x0 = length fp
    ∧ self' !! "roll" = Some (VNum roll)
    ∧ self' !! "height" = Some (VNum height).
Proof.
  intros Hi.
  destruct (fit_returns (fixHeight height (fixRoll roll self)))
    as (fp & x0 & -> & Hlen & Hmem).
  { unfold fixHeight, fixRoll. by do 2 apply instance_setattr. }
  eexists _, _, _. split; [reflexivity|].
  assert (∀ k v, fixHeight height (fixRoll roll self) !! k = Some (VNum v) →
            k ≠ "tilt" → k ∉ fp) as Hfixed.
  { intros k v Hk Hne [_ [->|Hfree]]%Hmem; [done|].
    unfold fixed_parameter in Hfree. by rewrite Hk in Hfree. }
  unfold fixHeight, fixRoll, setattr in *.
  repeat split.
  - apply (Hfixed _ roll); [by attrs|done].
  - apply (Hfixed _ height); [by attrs|done].
  - apply Hmem. split; [class_member|by left].
  - done.
  - by attrs.
  - by attrs.
Qed.

(** The promise on a fresh instance, with the roll fixed to 0 and the height
    to 20. *)
Lemma fixed_parameters_not_fitted_witness :
  ∃ fp x0 self',
    _fit (fixHeight 20 (fixRoll 0 class_attributes)) = Ok (fp, x0, self')
    ∧ ("roll" ∉ fp) ∧ ("height" ∉ fp) ∧ "tilt" ∈ fp
    ∧ length x0 = length fp
    ∧ self' !! "roll" = Some (VNum 0)
    ∧ self' !! "height" = Some (VNum 20).
Proof.
  apply (fixed_parameters_not_fitted class_attributes 0 20).
  apply instance_class_attributes.
Defined.

(** ** The earth transforms on rows and on arrays of any length *)

(** [transEarthToWorld] undoes the arc length of [transCamToEarth].  A row
    of [transCamToEarth] is [[x0, r * atan(y / r), H]] for a world point
    [(x0, y)] of the last round, with [r = R_earth + H]; for [r] other than
    zero, [transEarthToWorld] answers such a row with a fresh array that
    holds [x0] and [y] again, and in the third place the drop
    [r - r * cos(atan(y / r))] of the earth surface, not the height [H]. *)
Theorem transEarthToWorld_undoes_arc self heap x x0 y H Re :
  self !! "R_earth" = Some (VNum Re) →
  Re + H ≠ 0 →
  heap !! x = Some [x0; (Re + H) * atan (y / (Re + H)); H] →
  ∃ x' heap',
    transEarthToWorld x (self, heap) = Ok (x', (self, heap'))
    ∧ heap' !! x'
      = Some [x0; y; (Re + H) - (Re + H) * cos (atan (y / (Re + H)))]
    ∧ heap' !! x = heap !! x.
Proof.
  intros HR Hr Hx.
  pose proof (np_copy_fresh _ _ _ Hx) as [_ Hf].
  assert (fresh (dom heap) ≠ x) as Hne by (intros E; rewrite E in Hf; congruence).
  eexists _, _. split; [by apply transEarthToWorld_run|].
  rewrite lookup_insert_eq, lookup_insert_ne by done. split; [|done].
  cbv zeta.
  replace ((Re + H) * atan (y / (Re + H)) / (H + Re)) with (atan (y / (Re + H)))
    by (field; repeat split; lra).
  rewrite tan_atan. do 2 f_equal. f_equal; [field; lra|f_equal; ring].
Qed.

(** The row of the world point (3, 4) at sea level, on the earth of the
    class. *)
Lemma transEarthToWorld_undoes_arc_witness :
  let r := 6371e3 + 0 in
  ∃ x' heap',
    transEarthToWorld 0 (class_attributes, {[0%nat := [3; r * atan (4 / r); 0]]})
    = Ok (x', (class_attributes, heap'))
    ∧ heap' !! x' = Some [3; 4; r - r * cos (atan (4 / r))]
    ∧ heap' !! 0%nat
      = ({[0%nat := [3; r * atan (4 / r); 0]]} : gmap nat (list R)) !! 0%nat.
Proof.
  apply (transEarthToWorld_undoes_arc class_attributes
           {[0%nat := [3; (6371e3 + 0) * atan (4 / (6371e3 + 0)); 0]]} 0 3 4 0 6371e3).
  - by class_lookup.
  - lra.
  - apply lookup_singleton_eq.
Defined.

(** The earth transforms ask for an array of three components.  For an
    array of any other length [transWorldToEarth] raises: [IndexError] for a
    single component, which numpy broadcasts against the earth centre, and
    the [ValueError] of the broadcast otherwise.  [transEarthToWorld] raises
    [IndexError] for fewer than three components and returns for three or
    more. *)
Theorem earth_transforms_length self heap x v Re :
  self !! "R_earth" = Some (VNum Re) →
  heap !! x = Some v →
  (length v = 3%nat → ∃ r, transWorldToEarth x (self, heap) = Ok r)
  ∧ (length v = 1%nat → transWorldToEarth x (self, heap) = Raise IndexError)
  ∧ (length v ≠ 1%nat → length v ≠ 3%nat →
     transWorldToEarth x (self, heap)
     = Raise (ValueError "operands could not be broadcast together"))
  ∧ ((3 ≤ length v)%nat → ∃ r, transEarthToWorld x (self, heap) = Ok r)
  ∧ ((length v < 3)%nat → transEarthToWorld x (self, heap) = Raise IndexError).
Proof.
  intros HR Hx.
  assert (HW : transWorldToEarth x (self, heap)
               = d ← broadcast_sub v [0; 0; - Re];
                 x1 ← getitem (fresh (dom heap)) 1 (<[fresh (dom heap) := v]> heap);
                 heap' ← setitem (fresh (dom heap)) 1 (acos (x1 / norm d) * norm d)
                           (<[fresh (dom heap) := v]> heap);
                 heap' ← setitem (fresh (dom heap)) 2 (norm d) heap';
                 Ok (fresh (dom heap), (self, heap'))).
  { unfold transWorldToEarth. destruct (np_copy_fresh _ _ _ Hx) as [-> _].
    cbn [mbind result_bind]. unfold getattr. rewrite HR.
    cbn [mbind result_bind num]. by rewrite lookup_insert_eq. }
  assert (HE : transEarthToWorld x (self, heap)
               = x2 ← getitem (fresh (dom heap)) 2 (<[fresh (dom heap) := v]> heap);
                 x1 ← getitem (fresh (dom heap)) 1 (<[fresh (dom heap) := v]> heap);
                 heap' ← setitem (fresh (dom heap)) 1
                           (tan (x1 / (x2 + Re)) * (x2 + Re))
                           (<[fresh (dom heap) := v]> heap);
                 heap' ← setitem (fresh (dom heap)) 2
                           ((x2 + Re) - (x2 + Re) * cos (x1 / (x2 + Re))) heap';
                 Ok (fresh (dom heap), (self, heap'))).
  { unfold transEarthToWorld. destruct (np_copy_fresh _ _ _ Hx) as [-> _].
    cbn [mbind result_bind]. unfold getattr. rewrite HR.
    destruct (getitem _ 2 _); [|done]. cbn [mbind result_bind num]. done. }
  rewrite HW, HE. unfold getitem, setitem. rewrite !lookup_insert_eq.
  destruct v as [|e0 [|e1 [|e2 v]]]; cbn [length]; repeat split; intros; try lia;
    try done.
  - destruct v; [|cbn in *; lia].
    cbn [broadcast_sub length Nat.eqb mbind result_bind zip_with lookup list_lookup].
    rewrite decide_True by (cbn; lia). cbn [mbind result_bind].
    rewrite lookup_insert_eq. rewrite decide_True by (cbn; lia). by eexists.
  - destruct v; [cbn in *; lia|]. done.
  - cbn [lookup list_lookup mbind result_bind].
    rewrite decide_True by (cbn; lia). cbn [mbind result_bind].
    rewrite lookup_insert_eq.
    rewrite decide_True by (rewrite length_insert; cbn; lia). by eexists.
Qed.

(** The earth transforms on the array (1, 2) of two components. *)
Lemma earth_transforms_length_witness :
  transWorldToEarth 0 (class_attributes, {[0%nat := [1; 2]]})
  = Raise (ValueError "operands could not be broadcast together")
  ∧ transEarthToWorld 0 (class_attributes, {[0%nat := [1; 2]]}) = Raise IndexError.
Proof.
  destruct (earth_transforms_length class_attributes {[0%nat := [1; 2]]} 0 [1; 2]
              6371e3) as (_ & _ & H1 & _ & H2).
  - by class_lookup.
  - apply lookup_singleton_eq.
  - split; [apply H1; cbn; lia|apply H2; cbn; lia].
Defined.

(** ** What the constructor and an unposed camera raise *)

(** The exceptions of the constructor.  With a focal length other than
    zero, a missing image size and a missing sensor size are a [TypeError],
    and a sensor width together with an image of width zero is a
    [ZeroDivisionError]; an observer height without a focal length is an
    [AttributeError], since no intrinsic matrix was built; an observer
    height without a tilt angle is a [TypeError]. *)
Theorem init_raises fl :
  fl ≠ 0 →
  (∀ ss oh ang, __init__ (Some fl) ss None oh ang = Raise TypeError)
  ∧ (∀ size oh ang, __init__ (Some fl) None (Some size) oh ang = Raise TypeError)
  ∧ (∀ s h oh ang,
       __init__ (Some fl) (Some (SensorWidth s)) (Some (0, h)) oh ang
       = Raise ZeroDivisionError)
  ∧ (∀ ss size oh ang, __init__ None ss size (Some oh) (Some ang) = Raise AttributeError)
  ∧ (∀ sw sh w h oh,
       __init__ (Some fl) (Some (SensorPair sw sh)) (Some (w, h)) (Some oh) None
       = Raise TypeError).
Proof.
  intros Hf. repeat split.
  - intros ss oh ang. unfold __init__. cbn [of_option truthy mbind result_bind].
    rewrite bool_decide_true by done. reflexivity.
  - intros [w h] oh ang. unfold __init__. cbn [of_option truthy mbind result_bind].
    rewrite bool_decide_true by done. reflexivity.
  - intros s h oh ang. unfold __init__. cbn [of_option truthy mbind result_bind].
    rewrite bool_decide_true by done.
    cbn [mbind result_bind num]. run. by rewrite decide_True.
  - intros ss size oh ang. unfold __init__. cbn [of_option truthy mbind result_bind].
    unfold _initCameraMatrix, pose_angles. run.
    rewrite bool_decide_false by (intros ?; lra). run.
    unfold compose_camera_matrix. run. reflexivity.
  - intros sw sh w h oh. unfold __init__. cbn [of_option truthy mbind result_bind].
    rewrite bool_decide_true by done.
    cbn [mbind result_bind num]. unfold _initIntrinsicMatrix. run.
    unfold _initCameraMatrix, pose_angles. run. reflexivity.
Qed.

(** The exceptions of the constructor for the lens of the concrete
    scenario. *)
Lemma init_raises_witness :
  __init__ (Some 16) (Some (SensorWidth 10)) None (Some 20) (Some 80) = Raise TypeError
  ∧ __init__ (Some 16) (Some (SensorWidth 10)) (Some (0, 3000)) (Some 20) (Some 80)
    = Raise ZeroDivisionError
  ∧ __init__ None (Some (SensorWidth 10)) (Some (4000, 3000)) (Some 20) (Some 80)
    = Raise AttributeError.
Proof.
  destruct (init_raises 16 ltac:(lra)) as (H1 & _ & H3 & H4 & _).
  split; [apply H1|]. split; [apply H3|apply H4].
Defined.

(** A camera constructed without an observer height has no camera matrix
    and no height: the projection and the distance to the horizon raise
    [TypeError], and so does the image horizon; the back-projection and with
    it the image extent raise [AttributeError]. *)
Theorem unposed_camera_raises fl sw sh w h :
  fl ≠ 0 →
  ∃ cam,
    __init__ (Some fl) (Some (SensorPair sw sh)) (Some (w, h)) None None = Ok cam
    ∧ (∀ x, transWorldToCam cam (Arr1 x) = Raise TypeError)
    ∧ (∀ x dimension v, (dimension < 3)%nat →
         transCamToWorld_on cam (Arr1 x) dimension (Scalar v) = Raise AttributeError)
    ∧ distanceToHorizon cam = Raise TypeError
    ∧ getImageHorizon cam = Raise TypeError
    ∧ getImageExtend cam = Raise AttributeError.
Proof.
  intros Hf. exists (intrinsic_state fl sw sh w h).
  split; [by apply init_intrinsics|].
  assert (intrinsic_state fl sw sh w h !! "C" = Some VNone) as HC.
  { unfold intrinsic_state, setattr. attrs. by class_lookup. }
  assert (intrinsic_state fl sw sh w h !! "height" = Some VNone) as Hh.
  { unfold intrinsic_state, setattr. attrs. by class_lookup. }
  assert (intrinsic_state fl sw sh w h !! "R_earth" = Some (VNum 6371e3)) as HR.
  { unfold intrinsic_state, setattr. attrs. by class_lookup. }
  assert (∀ x fixed dimension,
            _transCamToWorldFixedDimension (intrinsic_state fl sw sh w h)
              (column x) fixed dimension = Raise AttributeError) as Hback.
  { intros x fixed dimension. unfold _transCamToWorldFixedDimension.
    rewrite vstack_ones. cbn [mbind result_bind].
    unfold reduced_matrix, getattr. by rewrite HC. }
  assert (distanceToHorizon (intrinsic_state fl sw sh w h) = Raise TypeError) as Hd.
  { unfold distanceToHorizon, getattr. by rewrite HR, Hh. }
  refine (conj _ (conj _ (conj Hd (conj _ _)))).
  - intros x. unfold transWorldToCam. cbn [as_columns]. rewrite vstack_ones.
    cbn [mbind result_bind]. unfold getattr. by rewrite HC.
  - intros x dimension v Hdim. rewrite transCamToWorld_on_axis by done.
    apply Hback.
  - unfold getImageHorizon. by rewrite Hd.
  - assert (∃ a b, intrinsic_state fl sw sh w h !! "im_height" = Some (VNum a)
                   ∧ intrinsic_state fl sw sh w h !! "im_width" = Some (VNum b))
      as (a & b & Ha & Hb).
    { eexists _, _. unfold intrinsic_state, setattr. split; by attrs. }
    unfold getImageExtend, getattr. rewrite Ha, Hb. cbn [mbind result_bind].
    cbn [transCamToWorld back_project count_none Nat.add Nat.eqb negb mbind
         result_bind as_columns].
    unfold _transCamToWorldFixedDimension. rewrite vstack_ones.
    cbn [mbind result_bind]. unfold reduced_matrix, getattr. by rewrite HC.
Qed.

(** The camera of the concrete scenario before it is given a height. *)
Lemma unposed_camera_raises_witness :
  ∃ cam,
    __init__ (Some 16) (Some (SensorPair 10 7.5)) (Some (4000, 3000)) None None = Ok cam
    ∧ (∀ x, transWorldToCam cam (Arr1 x) = Raise TypeError)
    ∧ (∀ x dimension v, (dimension < 3)%nat →
         transCamToWorld_on cam (Arr1 x) dimension (Scalar v) = Raise AttributeError)
    ∧ distanceToHorizon cam = Raise TypeError
    ∧ getImageHorizon cam = Raise TypeError
    ∧ getImageExtend cam = Raise AttributeError.
Proof. apply (unposed_camera_raises 16 10 7.5 4000 3000). lra. Defined.

(** ** Saving and loading *)

Lemma save_camera fl s w h oh tilt :
  save (camera fl s w h oh tilt)
  = Ok [("height", VNum oh); ("roll", VNone); ("heading", VNum 0);
        ("tilt", VNum tilt); ("pos_x", VNum 0); ("pos_y", VNum 0);
        ("f", VNum (fl * 1e-3)); ("sensor_width", VNum (s * 1e-3));
        ("sensor_height", VNum (s * h / w * 1e-3));
        ("fov_h_angle", VNum (2 * atan (s * 1e-3 / (2 * (fl * 1e-3)))));
        ("fov_v_angle", VNum (2 * atan (s * h / w * 1e-3 / (2 * (fl * 1e-3)))));
        ("im_width", VNum w); ("im_height", VNum h)].
Proof.
  unfold save, save_keys. cbn [mapM].
  unfold camera, rebuilt, posed, intrinsic_state. cbn zeta. run. reflexivity.
Qed.

(** A saved camera is restored by loading.  For the camera that the
    constructor builds from a focal length, a sensor width, an image size, a
    height and a tilt: [save] writes a file, and [load] of that file into a
    fresh instance gives the camera back, all its attributes and with them
    its camera matrix. *)
Theorem save_load_roundtrip fl s w h oh tilt :
  fl ≠ 0 → s ≠ 0 → w ≠ 0 →
  ∃ cam file,
    __init__ (Some fl) (Some (SensorWidth s)) (Some (w, h)) (Some oh) (Some tilt)
    = Ok cam
    ∧ save cam = Ok file
    ∧ load file class_attributes = Ok cam.
Proof.
  intros Hf _ Hw. eexists _, _.
  split; [by apply init_camera|]. split; [apply save_camera|].
  unfold load. cbn [foldl fst snd].
  unfold _initIntrinsicMatrix. run.
  unfold _initCameraMatrix, pose_angles. run.
  rewrite bool_decide_false by (intros ?; lra). run.
  rewrite compose_camera_matrix_ok with (px := 0) (py := 0) (K := intrinsic_matrix fl s w h);
    [| attrs; try class_lookup; done .. | by attrs | reflexivity].
  f_equal.
Qed.

(** The camera of the concrete scenario, saved and loaded. *)
Lemma save_load_roundtrip_witness :
  ∃ cam file,
    __init__ (Some 16) (Some (SensorWidth 10)) (Some (4000, 3000)) (Some 20) (Some 80)
    = Ok cam
    ∧ save cam = Ok file
    ∧ load file class_attributes = Ok cam.
Proof. apply (save_load_roundtrip 16 10 4000 3000 20 80); lra. Defined.

(** A camera constructed without an observer height can be saved, but the
    file cannot be loaded: [load] rebuilds the camera matrix, and the tilt it
    read is [None]. *)
Theorem load_unposed_raises fl sw sh w h :
  fl ≠ 0 → sw ≠ 0 →
  ∃ cam file,
    __init__ (Some fl) (Some (SensorPair sw sh)) (Some (w, h)) None None = Ok cam
    ∧ save cam = Ok file
    ∧ load file class_attributes = Raise TypeError.
Proof.
  intros Hf _. eexists _, _.
  split; [by apply init_intrinsics|]. split.
  - unfold save, save_keys. cbn [mapM]. unfold intrinsic_state. run. reflexivity.
  - unfold load. cbn [foldl fst snd].
    unfold _initIntrinsicMatrix. run.
    unfold _initCameraMatrix, pose_angles. run. reflexivity.
Qed.

(** The lens of the concrete scenario, saved before it is given a height. *)
Lemma load_unposed_raises_witness :
  ∃ cam file,
    __init__ (Some 16) (Some (SensorPair 10 7.5)) (Some (4000, 3000)) None None = Ok cam
    ∧ save cam = Ok file
    ∧ load file class_attributes = Raise TypeError.
Proof. apply (load_unposed_raises 16 10 7.5 4000 3000); lra. Defined.

(** ** Rebuilding the camera matrix twice *)

Lemma rebuilt_twice angle roll heading px py h K self :
  rebuilt angle roll heading px py h K (rebuilt angle roll heading px py h K self)
  = rebuilt angle roll heading px py h K self.
Proof.
  apply map_eq. intros k. unfold rebuilt, setattr. cbn zeta.
  rewrite !lookup_insert. repeat case_decide; done.
Qed.

(** The angles of a rebuild depend on five attributes only, and a rebuild
    without a roll argument leaves them as a second rebuild reads them. *)
Lemma pose_angles_again h ta self angle roll heading hv self1 s2 :
  pose_angles h ta None self = Ok (angle, roll, heading, hv, self1) →
  (∀ k, k ∈ ["tilt"; "height"; "roll"; "heading"; "tan_tilt"] →
        s2 !! k = self1 !! k) →
  pose_angles None None None s2 = Ok (angle, roll, heading, hv, s2).
Proof.
  intros H Hsame.
  assert (∀ k, k ∈ ["tilt"; "height"; "roll"; "heading"; "tan_tilt"] →
            getattr s2 k = getattr self1 k) as Hget.
  { intros k Hk. unfold getattr. by rewrite Hsame. }
  unfold pose_angles in H.
  inv_bind H as [tv s1] Et.
  inv_bind H as [hv' s3] Eh.
  inv_bind H as a Ea. apply num_Ok in Ea as ->.
  inv_bind H as roll' Er. inv_bind H as hd Ehd. inv_bind H as b Eb.
  inv_bind H as heading' Ehg. inv_bind H as tt Ett. inv_bind H as b' Eb'.
  assert ((∀ k, k ≠ "tilt" → s1 !! k = self !! k) ∧ s1 !! "tilt" = Some (VNum a))
    as [F1 T1].
  { unfold setattr in Et. destruct ta.
    - injection Et as <- <-. split; [intros; by rewrite lookup_insert_ne|].
      by rewrite lookup_insert_eq.
    - inv_bind Et as v Ev. injection Et as <- <-. by apply getattr_Ok in Ev. }
  assert ((∀ k, k ≠ "height" → s3 !! k = s1 !! k) ∧ s3 !! "height" = Some hv')
    as [F2 T2].
  { unfold setattr in Eh. destruct h.
    - injection Eh as <- <-. split; [intros; by rewrite lookup_insert_ne|].
      by rewrite lookup_insert_eq.
    - inv_bind Eh as v Ev. injection Eh as <- <-. by apply getattr_Ok in Ev. }
  assert (∃ td, self1 !! "tilt" = Some (VNum td)
                ∧ (∀ k, k ≠ "tilt" → self1 !! k = s3 !! k)
                ∧ (if b' then ∃ v, tt = VNum v ∧ angle = PI / 2 - atan v
                                   ∧ td = angle * 180 / PI
                   else angle = td * PI / 180)
                ∧ roll = roll' ∧ heading = heading' ∧ hv = hv')
    as (td & Htd & F3 & Hangle & -> & -> & ->).
  { unfold setattr in H. destruct b'.
    - inv_bind H as v Ev. apply num_Ok in Ev as ->. injection H as <- <- <- <- <-.
      eexists. split; [apply lookup_insert_eq|].
      split; [intros; by rewrite lookup_insert_ne|].
      split; [by exists v|done].
    - injection H as <- <- <- <- <-. exists a.
      split; [by rewrite F2|]. split; [done|]. done. }
  assert (∀ k, k ∈ ["roll"; "heading"; "tan_tilt"] → getattr s2 k = getattr s3 k)
    as Hget3.
  { intros k Hk. unfold getattr.
    repeat (apply elem_of_cons in Hk as [->|Hk]); [..|by apply elem_of_nil in Hk];
      (rewrite Hsame, F3; [done|done|]);
      repeat first [apply list_elem_of_here | apply list_elem_of_further]. }
  assert (getattr s2 "tilt" = Ok (VNum td)) as Hs2t.
  { unfold getattr. rewrite Hsame, Htd; [done|]. apply list_elem_of_here. }
  assert (getattr s2 "height" = Ok hv') as Hs2h.
  { unfold getattr. rewrite Hsame, F3, T2; [done|done|].
    apply list_elem_of_further, list_elem_of_here. }
  unfold pose_angles. rewrite Hs2t. cbn [mbind result_bind].
  rewrite Hs2h. cbn [mbind result_bind num].
  rewrite (Hget3 "roll"), Er by apply list_elem_of_here. cbn [mbind result_bind].
  rewrite (Hget3 "heading"), Ehd
    by apply list_elem_of_further, list_elem_of_here.
  cbn [mbind result_bind]. rewrite Eb. cbn [mbind result_bind].
  rewrite Ehg. cbn [mbind result_bind].
  rewrite (Hget3 "tan_tilt"), Ett
    by (do 2 apply list_elem_of_further; apply list_elem_of_here).
  cbn [mbind result_bind]. rewrite Eb'. cbn [mbind result_bind].
  destruct b'.
  - destruct Hangle as (v & -> & -> & ->). cbn [num mbind result_bind].
    unfold setattr. rewrite insert_id; [done|].
    apply getattr_Ok in Hs2t. exact Hs2t.
  - by rewrite Hangle.
Qed.

(** A rebuild is idempotent.  After a successful rebuild of the camera
    matrix, with or without a height and a tilt passed to it and without a
    roll passed, a second rebuild without arguments succeeds and changes
    nothing: the height and the tilt that were passed have been stored, and
    every attribute the rebuild writes is written with the same value. *)
Theorem initCameraMatrix_idempotent h ta self self' :
  _initCameraMatrix h ta None self = Ok self' →
  _initCameraMatrix None None None self' = Ok self'.
Proof.
  intros H.
  apply initCameraMatrix_inv in H
    as (angle & roll & heading & px & py & hh & K & self1 & E & Hx & Hy & HK & Hn & ->).
  unfold _initCameraMatrix.
  rewrite (pose_angles_again _ _ _ _ _ _ _ _ _ E).
  - cbn [mbind result_bind].
    rewrite (compose_camera_matrix_ok _ _ _ px py hh K);
      rewrite ?rebuilt_frame by done; try done.
    by rewrite rebuilt_twice.
  - intros k Hk. apply rebuilt_frame;
      intros ->; revert Hk; by apply (bool_decide_unpack _).
Qed.

(** The camera of the concrete scenario, rebuilt once more. *)
Lemma initCameraMatrix_idempotent_witness :
  _initCameraMatrix None None None (camera 16 10 4000 3000 20 80)
  = Ok (camera 16 10 4000 3000 20 80).
Proof.
  apply (initCameraMatrix_idempotent None None (posed 16 10 4000 3000 20 80)).
  apply rebuild_posed.
Defined.

(** ** Fitting to objects of equal height *)

(** The lines may be drawn in either direction.  The arrays of the feet and
    of the heads that [fitCamParametersFromObjects] builds from lines do not
    change when the two ends of some of the lines are exchanged: the foot is
    always the end with the larger image row. *)
Theorem line_points_direction (lines lines' : list line) :
  Forall2 (λ l l', l' = l ∨ l' = reversed l) lines lines' →
  line_points lines' = line_points lines.
Proof.
  intros H. unfold line_points. cbv zeta.
  assert (∀ f : line → R, (∀ l, f (reversed l) = f l) → map f lines' = map f lines)
    as Hmap.
  { intros f Hf. induction H as [|l l' ls ls' [->| ->] _ IH]; cbn;
      [done|by rewrite IH|by rewrite IH, Hf]. }
  rewrite (Hmap (λ l, (x1 l + x2 l) / 2)), (Hmap (λ l, Rmax (y1 l) (y2 l))),
    (Hmap (λ l, Rmin (y1 l) (y2 l))); [done|..].
  - intros l. apply Rmin_comm.
  - intros l. apply Rmax_comm.
  - intros l. cbn. lra.
Qed.

(** Two lines, the second one drawn from the head to the foot. *)
Lemma line_points_direction_witness :
  line_points [Line 10 500 10 400; Line 30 410 32 520]
  = line_points [Line 10 500 10 400; Line 32 520 30 410].
Proof.
  apply line_points_direction.
  apply Forall2_cons_2; [by left|]. apply Forall2_cons_2; [by right|].
  apply Forall2_nil_2.
Defined.

Lemma stretch_length {A} (n : nat) (l : list A) : length l = n → stretch n l = l.
Proof. destruct l as [|a [|b l]]; cbn; intros <-; done. Qed.

Lemma mean_zero {A} (l : list A) : mean (map (λ _, 0) l) = 0.
Proof.
  unfold mean.
  assert (foldr Rplus 0 (map (λ _, 0) l) = 0) as ->.
  { induction l as [|a l IH]; cbn; [done|]. rewrite IH. lra. }
  unfold Rdiv. apply Rmult_0_l.
Qed.

(** The cost of two arrays of pixels that agree. *)
Lemma cost_of_agreement {A} (f g : A → R) (l : list A) :
  broadcast_minus [map f l; map g l] [map f l; map g l]
  = Ok [map (λ _, 0) l; map (λ _, 0) l].
Proof.
  unfold broadcast_minus, broadcast_length. cbn [nrows ncols length].
  rewrite !decide_True by done. cbn [mbind result_bind stretch zip_with].
  rewrite !stretch_length by (by rewrite !length_map).
  rewrite !zip_with_fmaps. do 2 f_equal; [|f_equal]; apply map_ext; intros; lra.
Qed.

(** The cost function vanishes on a camera that explains the data.  For a
    camera whose camera matrix is a 3x4 matrix and objects of the height
    [object_height], at least one, that stand on the plane [Z =
    object_elevation]: if the reduced matrix of that plane is not singular
    and no foot and no head has depth zero, then the cost of the projected
    feet and the projected heads is zero. *)
Theorem cost_zero_for_true_camera self
    c11 c12 c13 c14 c21 c22 c23 c24 c31 c32 c33 c34
    (q : list (R * R)) object_height object_elevation P points_foot points_head :
  self !! "C" = Some (VArr [[c11; c12; c13; c14]; [c21; c22; c23; c24];
                            [c31; c32; c33; c34]]) →
  q ≠ [] →
  reduced_matrix self object_elevation 2 = Ok P → det P ≠ 0 →
  Forall (λ p, ∃ d, depth self p = Ok d ∧ d ≠ 0)
    (transpose (plane_points 2 object_elevation q)) →
  Forall (λ p, ∃ d, depth self p = Ok d ∧ d ≠ 0)
    (transpose (plane_points 2 (object_elevation + object_height) q)) →
  transWorldToCam self (Arr2 (plane_points 2 object_elevation q)) = Ok points_foot →
  transWorldToCam self (Arr2 (plane_points 2 (object_elevation + object_height) q))
  = Ok points_head →
  cost self points_foot points_head object_height object_elevation = Ok 0.
Proof.
  intros HC Hq HP HD Hdepth _ Hfoot Hhead.
  destruct (world_image_world_points _ _ _ _ _ _ _ _ _ _ _ _ _ HC q
              object_elevation 2 P) as (img & H1 & H2); try done; [lia|].
  rewrite Hfoot in H1. injection H1 as <-.
  unfold cost.
  change (transCamToWorld self (Arr2 points_foot) None None
            (Some (Scalar object_elevation)))
    with (_transCamToWorldFixedDimension self points_foot object_elevation 2).
  rewrite H2. cbn [mbind result_bind plane_points set_row_2 lookup list_lookup
                     insert list_insert].
  rewrite map_map.
  change [q.*1; q.*2; map (λ _, object_elevation + object_height) q]
    with (plane_points 2 (object_elevation + object_height) q).
  rewrite Hhead. cbn [mbind result_bind].
  unfold plane_points in Hhead.
  rewrite (transWorldToCam_points _ _ _ _ _ _ _ _ _ _ _ _ _ HC) in Hhead.
  cbv zeta in Hhead. injection Hhead as <-.
  rewrite cost_of_agreement. cbn [mbind result_bind].
  change [map (λ _ : R * R, 0) q; map (λ _ : R * R, 0) q]
    with (map (λ k : R * R → R, map k q) [λ _, 0; λ _, 0]).
  rewrite transpose_fmaps by done. rewrite !map_map.
  f_equal. etrans; [|apply (mean_zero q)]. f_equal. apply map_ext. intros ?.
  unfold norm, dotp. cbn [map zip_with foldr].
  replace (0 * 0 + (0 * 0 + 0)) with 0 by ring. rewrite sqrt_0. ring.
Qed.

(** Two objects of height 1 on the ground, seen by the camera of the
    concrete scenario. *)
Lemma cost_zero_for_true_camera_witness :
  ∃ points_foot points_head,
    transWorldToCam (camera 16 10 4000 3000 20 80)
      (Arr2 (plane_points 2 0 [(0, 50); (10, 60)])) = Ok points_foot
    ∧ transWorldToCam (camera 16 10 4000 3000 20 80)
        (Arr2 (plane_points 2 (0 + 1) [(0, 50); (10, 60)])) = Ok points_head
    ∧ cost (camera 16 10 4000 3000 20 80) points_foot points_head 1 0 = Ok 0.
Proof.
  assert (HP : ∃ P, reduced_matrix (camera 16 10 4000 3000 20 80) 0 2 = Ok P).
  { unfold reduced_matrix, getattr. rewrite camera_C. np_cbn. by eexists. }
  destruct HP as [P HP].
  pose proof (λ z, transWorldToCam_points _ _ _ _ _ _ _ _ _ _ _ _ _
                     (camera_C 16 10 4000 3000 20 80)
                     fst snd (λ _, z) [(0, 50); (10, 60)]) as Hproj.
  eexists _, _.
  refine (conj (Hproj 0) (conj (Hproj (0 + 1)) _)).
  apply (cost_zero_for_true_camera (camera 16 10 4000 3000 20 80)
           _ _ _ _ _ _ _ _ _ _ _ _ [(0, 50); (10, 60)] 1 0 P _ _
           (camera_C 16 10 4000 3000 20 80) ltac:(done) HP).
  - rewrite (camera_reduced_det _ _ _ _ _ _ _ _ HP). lra.
  - pose proof sin_80_pos. pose proof cos_80_pos.
    unfold plane_points. np_cbn.
    apply Forall_cons_2; [|apply Forall_cons_2; [|apply Forall_nil_2]];
      eexists; (split; [apply camera_depth|]); cbn [fst snd]; lra.
  - pose proof sin_80_pos. pose proof cos_80_pos.
    unfold plane_points. np_cbn.
    apply Forall_cons_2; [|apply Forall_cons_2; [|apply Forall_nil_2]];
      eexists; (split; [apply camera_depth|]); cbn [fst snd]; lra.
  - apply (Hproj 0).
  - apply (Hproj (0 + 1)).
Defined.
